(** * RLM: wire protocol, request router and orchestration loop

    A shallow embedding of [rlm/core/comms_utils.py], [rlm/core/lm_handler.py],
    [rlm/core/types.py] and [rlm/core/rlm.py], and the properties that the
    specification states about them.

    Python values that travel through the protocol are modelled by [pyval];
    exceptions by the [Raise] branch of [outcome]; mutation of shared objects
    by an explicit heap; sockets by scripted streams of receive events. *)

From stdpp Require Import base option list strings pretty gmap.
From Stdlib Require Import ZArith QArith Lia.
From Stdlib Require Import Strings.Ascii Strings.Byte.

Set Warnings "-register-all".
Open Scope string_scope.
Open Scope Z_scope.

(** ** Python values *)

(** The values that [json.loads] can produce, and that [json.dumps] accepts.
    A [dict] keeps its insertion order, so it is an association list whose
    keys are pairwise distinct; [None] is [PNone]. *)
Inductive pyval : Type :=
  | PNone
  | PBool (b : bool)
  | PInt (n : Z)
  | PStr (s : string)
  | PList (l : list pyval)
  | PDict (d : list (string * pyval)).

Abbreviation pydict := (list (string * pyval)).

(** [d.get(k)]: the value bound to [k], if any. *)
Fixpoint dict_lookup (k : string) (d : pydict) : option pyval :=
  match d with
  | [] => None
  | (k', v) :: d' => if decide (k = k') then Some v else dict_lookup k d'
  end.

(** [d.get(k, dflt)]. *)
Definition dict_get (k : string) (dflt : pyval) (d : pydict) : pyval :=
  default dflt (dict_lookup k d).

(** [d[k] = v]: replaces the binding in place, or appends a new one. *)
Fixpoint dict_set (k : string) (v : pyval) (d : pydict) : pydict :=
  match d with
  | [] => [(k, v)]
  | (k', v') :: d' =>
      if decide (k = k') then (k, v) :: d' else (k', v') :: dict_set k v d'
  end.

Definition dict_keys (d : pydict) : list string := d.*1.

(** Python truthiness, as used by [if x:], [not x] and [x or y]. *)
Definition truthy (v : pyval) : bool :=
  match v with
  | PNone => false
  | PBool b => b
  | PInt n => negb (n =? 0)%Z
  | PStr s => negb (String.eqb s "")
  | PList l => match l with [] => false | _ => true end
  | PDict d => match d with [] => false | _ => true end
  end.

(** [isinstance(v, dict)]. *)
Definition is_dict (v : pyval) : bool :=
  match v with PDict _ => true | _ => false end.

(** [x is None]. *)
Definition is_none (v : pyval) : bool :=
  match v with PNone => true | _ => false end.

(** ** Exceptions *)

(** An exception carries its class and its message; [str(e)] is the message. *)
Record exn : Type := Exn { exn_class : string; exn_msg : string }.

Definition str_exn (e : exn) : string := exn_msg e.

(** What a call produces: a value, or a raised exception. *)
Inductive outcome (A : Type) : Type :=
  | Ok (a : A)
  | Raise (e : exn).
Arguments Ok {A} a.
Arguments Raise {A} e.

(** Computations over a mutable state [S] that may raise.  The state
    survives an exception, as it does in Python. *)
Definition M (S A : Type) : Type := S -> outcome A * S.

#[global] Instance M_ret {S} : MRet (M S) := fun A a s => (Ok a, s).

#[global] Instance M_bind {S} : MBind (M S) := fun A B f m s =>
  match m s with
  | (Ok a, s') => f a s'
  | (Raise e, s') => (Raise e, s')
  end.

Definition raise {S A} (e : exn) : M S A := fun s => (Raise e, s).

Definition lift {S A} (r : outcome A) : M S A := fun s => (r, s).

(** [try: body except Exception as e: handler(e)]. *)
Definition try_except {S A} (body : M S A) (handler : exn -> M S A) : M S A :=
  fun s =>
    match body s with
    | (Raise e, s') => handler e s'
    | r => r
    end.

(** Run a computation on one component of a pair of states. *)
Definition on_fst {S T A} (m : M S A) : M (S * T) A := fun st =>
  let '(r, s') := m st.1 in (r, (s', st.2)).

Definition on_snd {S T A} (m : M T A) : M (S * T) A := fun st =>
  let '(r, t') := m st.2 in (r, (st.1, t')).

(** ** Message dataclasses ([comms_utils.py]) *)

Module LMRequest.

(** [prompt] is a string or a structured list of turns; the dataclass does
    not check its field types, so both fields hold arbitrary values and an
    absent [model] is [PNone]. *)
Record t : Type := Build { prompt : pyval; model : pyval }.

Definition to_dict (self : t) : pydict :=
  let d := [("prompt", prompt self)] in
  if negb (is_none (model self)) then dict_set "model" (model self) d else d.

Definition from_dict (data : pydict) : t :=
  {| prompt := dict_get "prompt" (PStr "") data;
     model := dict_get "model" PNone data |}.

End LMRequest.

Module LMResponse.

Record t : Type := Build { content : pyval; error : pyval }.

Definition success (self : t) : bool := is_none (error self).

Definition to_dict (self : t) : pydict :=
  if negb (is_none (error self)) then [("error", error self)]
  else [("content", if truthy (content self) then content self else PStr "")].

Definition from_dict (data : pydict) : t :=
  {| content := dict_get "content" PNone data;
     error := dict_get "error" PNone data |}.

Definition success_response (content : string) : t :=
  {| content := PStr content; error := PNone |}.

Definition error_response (error : string) : t :=
  {| content := PNone; error := PStr error |}.

End LMResponse.

(** ** Sockets and framing ([comms_utils.py]) *)

(** What the peer and the network do to a blocking [recv]: deliver a segment
    of bytes, or make the call raise (time-out, reset).  When the events are
    used up the peer has closed the connection and [recv] returns [b""]. *)
Inductive recv_event : Type :=
  | Segment (bs : list byte)
  | Fault (e : exn).

Record socket : Type := Socket {
  incoming : list recv_event;
  outgoing : list byte;
  send_fault : option exn
}.

(** [sock.recv(n)] for [n > 0]: at most [n] bytes of the first segment. *)
Fixpoint recv_events (n : nat) (evs : list recv_event)
  : outcome (list byte) * list recv_event :=
  match evs with
  | [] => (Ok [], [])
  | Fault e :: rest => (Raise e, rest)
  | Segment [] :: rest => recv_events n rest
  | Segment bs :: rest =>
      (Ok (take n bs),
       match drop n bs with [] => rest | tl => Segment tl :: rest end)
  end.

Definition recv (n : nat) : M socket (list byte) := fun s =>
  let '(r, evs) := recv_events n (incoming s) in
  (r, {| incoming := evs; outgoing := outgoing s; send_fault := send_fault s |}).

(** [sock.sendall(bs)]. *)
Definition sendall (bs : list byte) : M socket unit := fun s =>
  match send_fault s with
  | Some e => (Raise e, s)
  | None =>
      (Ok tt, {| incoming := incoming s; outgoing := outgoing s ++ bs;
                 send_fault := None |})
  end.

Definition byte_of_Z (n : Z) : byte :=
  default x00 (Byte.of_N (Z.to_N (n mod 256))).

Definition Z_of_byte (b : byte) : Z := Z.of_N (Byte.to_N b).

Definition struct_error (msg : string) : exn := Exn "struct.error" msg.

(** [struct.pack(">I", n)]. *)
Definition pack_u32 (n : Z) : outcome (list byte) :=
  if (0 <=? n) && (n <? 2 ^ 32) then
    Ok [byte_of_Z (n ≫ 24); byte_of_Z (n ≫ 16); byte_of_Z (n ≫ 8); byte_of_Z n]
  else Raise (struct_error "'I' format requires 0 <= number <= 4294967295").

(** [struct.unpack(">I", bs)[0]]. *)
Definition unpack_u32 (bs : list byte) : outcome Z :=
  match bs with
  | [a; b; c; d] =>
      Ok (Z_of_byte a ≪ 24 + Z_of_byte b ≪ 16 + Z_of_byte c ≪ 8 + Z_of_byte d)
  | _ => Raise (struct_error "unpack requires a buffer of 4 bytes")
  end.

(** The [json] module: [json.dumps(v).encode("utf-8")] and
    [json.loads(bs.decode("utf-8"))], the latter raising on bytes that are
    not a JSON text. *)
Class JsonCodec : Type := {
  json_dumps : pyval -> list byte;
  json_loads : list byte -> outcome pyval
}.

Definition ConnectionError (msg : string) : exn := Exn "ConnectionError" msg.

Section Framing.
Context `{JsonCodec}.

Definition socket_send (data : pyval) : M socket unit :=
  let payload := json_dumps data in
  header ← lift (pack_u32 (Z.of_nat (length payload)));
  sendall (header ++ payload).

(** The [while len(payload) < length] loop.  Every turn either raises or
    adds at least one byte, so [length] turns are enough; [fuel] counts
    them. *)
Fixpoint recv_payload (fuel length : nat) (payload : list byte)
  : M socket (list byte) :=
  if (List.length payload <? length)%nat then
    match fuel with
    | O => mret payload
    | S fuel' =>
        chunk ← recv (length - List.length payload);
        match chunk with
        | [] => raise (ConnectionError "Connection closed before message complete")
        | _ => recv_payload fuel' length (payload ++ chunk)
        end
    end
  else mret payload.

Definition socket_recv : M socket pyval :=
  raw_len ← recv 4;
  match raw_len with
  | [] => mret (PDict [])
  | _ =>
      length ← lift (unpack_u32 raw_len);
      payload ← recv_payload (Z.to_nat length) (Z.to_nat length) [];
      lift (json_loads payload)
  end.

End Framing.

(** ** Typed request helpers ([comms_utils.py]) *)

(** The network as a client sees it: [socket.socket()], [settimeout] and
    [connect] either raise (refused, timed out) or give a connected socket
    whose later receive events may still time out. *)
Class Network : Type := {
  connect : string * Z -> Z -> outcome socket
}.

(** [type(v).__name__]. *)
Definition type_name (v : pyval) : string :=
  match v with
  | PNone => "NoneType"
  | PBool _ => "bool"
  | PInt _ => "int"
  | PStr _ => "str"
  | PList _ => "list"
  | PDict _ => "dict"
  end.

(** [LMResponse.from_dict(v)] on a value whose type is not known to be a
    [dict]: [v.get] raises on anything else. *)
Definition response_from_value (v : pyval) : outcome LMResponse.t :=
  match v with
  | PDict d => Ok (LMResponse.from_dict d)
  | _ => Raise (Exn "AttributeError"
                  ("'" ++ type_name v ++ "' object has no attribute 'get'"))
  end.

Definition default_timeout : Z := 300.

Section Requests.
Context `{JsonCodec} `{Network}.

(** The [with] block closes the socket on every path, so only the result
    of the exchange is kept. *)
Definition socket_request (address : string * Z) (data : pyval)
    (timeout : option Z) : outcome pyval :=
  match connect address (default default_timeout timeout) with
  | Raise e => Raise e
  | Ok sock => ((socket_send data ≫= λ _, socket_recv) sock).1
  end.

Definition send_lm_request (address : string * Z) (request : LMRequest.t)
    (timeout : option Z) : LMResponse.t :=
  match socket_request address (PDict (LMRequest.to_dict request)) timeout with
  | Ok response_data =>
      match response_from_value response_data with
      | Ok response => response
      | Raise e => LMResponse.error_response ("Request failed: " ++ str_exn e)
      end
  | Raise e => LMResponse.error_response ("Request failed: " ++ str_exn e)
  end.

End Requests.

(** ** Core types ([types.py]) and the collaborators' contracts *)

Record REPLResult : Type := {
  stdout : string;
  stderr : string;
  locals : pydict;
  execution_time : option Q
}.

Record CodeBlock : Type := { code : string; result : REPLResult }.

Record RLMIteration : Type := {
  response : string;
  code_blocks : list CodeBlock
}.

Section Core.
(** [Ext] is the state of everything outside the core: the providers behind
    the model clients and the process behind the environment. *)
Context {Ext : Type}.

(** [BaseLM]: a model client.  A completion may raise and may change the
    provider's state. *)
Record BaseLM : Type := {
  model_name : string;
  lm_completion : pyval -> Ext -> outcome string * Ext
}.

(** [BaseEnv]: an execution environment. *)
Record BaseEnv : Type := {
  execute_code : string -> Ext -> outcome REPLResult * Ext
}.

(** The state the core runs in.  [lm_calls] and [executed] record, in order,
    every completion asked of a client and every block handed to the
    environment; [heap] holds the mutable dicts that are passed by
    reference. *)
Record World : Type := {
  ext : Ext;
  lm_calls : list (string * pyval);
  executed : list (string * outcome REPLResult);
  heap : gmap nat pydict
}.

(** [client.completion(prompt)]. *)
Definition completion_call (client : BaseLM) (prompt : pyval) : M World string :=
  fun w =>
    let '(r, x) := lm_completion client prompt (ext w) in
    (r, {| ext := x;
           lm_calls := lm_calls w ++ [(model_name client, prompt)];
           executed := executed w;
           heap := heap w |}).

(** [environment.execute_code(code)]. *)
Definition execute_call (env : BaseEnv) (code_str : string) : M World REPLResult :=
  fun w =>
    let '(r, x) := execute_code env code_str (ext w) in
    (r, {| ext := x;
           lm_calls := lm_calls w;
           executed := executed w ++ [(code_str, r)];
           heap := heap w |}).

(** ** The request router ([lm_handler.py]) *)

(** [_server] holds the bound port while the server runs. *)
Record LMHandler : Type := {
  default_client : BaseLM;
  clients : gmap string BaseLM;
  host : string;
  _server : option Z;
  _port : Z
}.

(** [LMHandler(client, host, port)]; an argument left out is [None] here and
    takes its default, ["127.0.0.1"] and [0] (a port chosen by the system). *)
Definition LMHandler_init (client : BaseLM) (host : option string)
    (port : option Z) : LMHandler :=
  {| default_client := client; clients := ∅; host := default "127.0.0.1" host;
     _server := None; _port := default 0 port |}.

Definition register_client (self : LMHandler) (name : string) (client : BaseLM)
  : LMHandler :=
  {| default_client := default_client self;
     clients := <[name := client]> (clients self);
     host := host self; _server := _server self; _port := _port self |}.

(** [model in self.clients]: the keys are strings; a list or a dict is not
    hashable. *)
Definition model_in_clients (self : LMHandler) (model : pyval) : outcome bool :=
  match model with
  | PStr name => Ok (bool_decide (is_Some (clients self !! name)))
  | PList _ | PDict _ =>
      Raise (Exn "TypeError" ("unhashable type: '" ++ type_name model ++ "'"))
  | _ => Ok false
  end.

Definition get_client (self : LMHandler) (model : pyval) : outcome BaseLM :=
  if truthy model then
    match model_in_clients self model with
    | Raise e => Raise e
    | Ok true =>
        match model with
        | PStr name => Ok (default (default_client self) (clients self !! name))
        | _ => Ok (default_client self)
        end
    | Ok false => Ok (default_client self)
    end
  else Ok (default_client self).

Definition port (self : LMHandler) : Z := default (_port self) (_server self).

Definition address (self : LMHandler) : string * Z := (host self, port self).

(** [LMHandler.completion(prompt, model)], the in-process shortcut. *)
Definition handler_completion (self : LMHandler) (prompt model : pyval)
  : M World string :=
  client ← lift (get_client self model);
  completion_call client prompt.

Definition as_dict (v : pyval) : pydict :=
  match v with PDict d => d | _ => [] end.

Section Handle.
Context `{JsonCodec}.

Definition send_response (r : LMResponse.t) : M (socket * World) unit :=
  on_fst (socket_send (PDict (LMResponse.to_dict r))).

(** [LMRequestHandler.handle], for the connection [socket] and the
    handler the server carries. *)
Definition handle (handler : LMHandler) : M (socket * World) unit :=
  try_except
    (request_data ← on_fst socket_recv;
     if negb (is_dict request_data) then
       send_response (LMResponse.error_response "Request must be a JSON object")
     else
       let request := LMRequest.from_dict (as_dict request_data) in
       if negb (truthy (LMRequest.prompt request)) then
         send_response
           (LMResponse.error_response "Missing or invalid 'prompt' in request.")
       else
         client ← lift (get_client handler (LMRequest.model request));
         content ← on_snd (completion_call client (LMRequest.prompt request));
         send_response (LMResponse.success_response content))
    (λ e, send_response (LMResponse.error_response (str_exn e))).
End Handle.

End Core.

Arguments BaseLM : clear implicits.
Arguments BaseEnv : clear implicits.
Arguments World : clear implicits.
Arguments LMHandler : clear implicits.

(** ** The orchestrator ([rlm.py]) *)

(** [rlm.utils.parsing] is imported by [rlm.py]; the loop only relies on the
    signatures of its three functions. *)
Class Parsing : Type := {
  extract_code_blocks : string -> list string;
  extract_final_answer : RLMIteration -> option string;
  format_iteration : RLMIteration -> list pyval
}.

(** What [RLM.__init__] reaches outside the core: the process environment,
    the constructors of the concrete clients and environments, the system
    prompt, and the operating system binding the server's address (the
    result is the port actually bound). *)
Class Platform (Ext : Type) : Type := {
  environ : string -> option string;
  OpenAIClient : string -> pydict -> outcome (BaseLM Ext);
  PortkeyClient : string -> pydict -> outcome (BaseLM Ext);
  get_environment : string -> pydict -> outcome (BaseEnv Ext);
  RLM_SYSTEM_PROMPT : string;
  server_bind : string * Z -> outcome Z
}.

Section Orchestrator.
Context {Ext : Type} `{Parsing} `{Platform Ext}.

(** [rlm.clients.get_client]. *)
Definition clients_get_client (backend : string) (backend_kwargs : pydict)
  : outcome (BaseLM Ext) :=
  if decide (backend = "openai") then
    match environ "OPENAI_API_KEY" with
    | Some api_key =>
        if truthy (PStr api_key) then OpenAIClient api_key backend_kwargs
        else Raise (Exn "ValueError" "OPENAI_API_KEY not set")
    | None => Raise (Exn "ValueError" "OPENAI_API_KEY not set")
    end
  else if decide (backend = "portkey") then
    match environ "PORTKEY_API_KEY" with
    | Some api_key =>
        if truthy (PStr api_key) then PortkeyClient api_key backend_kwargs
        else Raise (Exn "ValueError" "PORTKEY_API_KEY not set")
    | None => Raise (Exn "ValueError" "PORTKEY_API_KEY not set")
    end
  else
    Raise (Exn "ValueError"
             ("Unknown backend: " ++ backend ++ ". Supported backends: ['openai']")).

(** [LMHandler.start]: the handler after the call, and the address. *)
Definition start (self : LMHandler Ext) : outcome (LMHandler Ext * (string * Z)) :=
  match _server self with
  | Some _ => Ok (self, address self)
  | None =>
      match server_bind (host self, _port self) with
      | Raise e => Raise e
      | Ok bound =>
          let self' :=
            {| default_client := default_client self; clients := clients self;
               host := host self; _server := Some bound; _port := _port self |} in
          Ok (self', address self')
      end
  end.


Record RLM : Type := {
  max_depth : Z;
  max_iterations : Z;
  system_prompt : string;
  lm_handler : LMHandler Ext;
  environment : BaseEnv Ext
}.

(** The dict created once, when [def __init__] is evaluated, as the default
    value of [environment_kwargs]. *)
Definition default_environment_kwargs : nat := 0%nat.

Definition heap_read (l : nat) (w : World Ext) : pydict :=
  default [] (heap w !! l).

(** [d[k] = v] for the dict object at [l]. *)
Definition heap_setitem (l : nat) (k : string) (v : pyval) : M (World Ext) unit :=
  fun w =>
    (Ok tt, {| ext := ext w; lm_calls := lm_calls w; executed := executed w;
               heap := <[l := dict_set k v (heap_read l w)]> (heap w) |}).

(** The [for backend, kwargs in zip(...)] loop of [__init__]. *)
Fixpoint register_others (handler : LMHandler Ext)
    (pairs : list (string * pydict)) : outcome (LMHandler Ext) :=
  match pairs with
  | [] => Ok handler
  | (backend, kwargs) :: rest =>
      match clients_get_client backend kwargs with
      | Raise e => Raise e
      | Ok client =>
          register_others (register_client handler (model_name client) client) rest
      end
  end.

(** [RLM.__init__].  [environment_kwargs] is a reference to a dict; [None]
    stands for the argument being omitted, when Python supplies the default
    object. *)
Definition RLM_init (backend : string) (backend_kwargs : pydict)
    (environment : string) (environment_kwargs : option nat)
    (max_depth max_iterations : Z) (custom_system_prompt : option string)
    (other_backends : option (list string))
    (other_backend_kwargs : option (list pydict)) : M (World Ext) RLM :=
  let environment_kwargs := default default_environment_kwargs environment_kwargs in
  let system_prompt :=
    match custom_system_prompt with
    | Some p => if truthy (PStr p) then p else RLM_SYSTEM_PROMPT
    | None => RLM_SYSTEM_PROMPT
    end in
  client ← lift (clients_get_client backend backend_kwargs);
  handler ←
    match other_backends with
    | Some (b :: bs) =>
        match other_backend_kwargs with
        | Some kws =>
            lift (register_others (LMHandler_init client None None)
                    (zip (b :: bs) kws))
        | None => raise (Exn "TypeError" "'NoneType' object is not iterable")
        end
    | _ => mret (LMHandler_init client None None)
    end;
  started ← lift (start handler);
  let handler := started.1 in
  heap_setitem environment_kwargs "LM_HANDLER_HOST" (PStr (host handler));;
  heap_setitem environment_kwargs "LM_HANDLER_PORT" (PInt (port handler));;
  kwargs ← (λ w, (Ok (heap_read environment_kwargs w), w));
  env ← lift (get_environment environment kwargs);
  mret {| max_depth := max_depth; max_iterations := max_iterations;
          system_prompt := system_prompt; lm_handler := handler;
          environment := env |}.

Definition _setup_prompt (self : RLM) (prompt : pyval) : list pyval :=
  [] ++ [PDict [("role", PStr "user"); ("content", prompt)]].

(** The [for code_block_str in code_block_strs] loop of a turn. *)
Fixpoint run_code_blocks (self : RLM) (code_block_strs : list string)
    (code_blocks : list CodeBlock) : M (World Ext) (list CodeBlock) :=
  match code_block_strs with
  | [] => mret code_blocks
  | code_block_str :: rest =>
      code_result ← execute_call (environment self) code_block_str;
      run_code_blocks self rest
        (code_blocks ++ [{| code := code_block_str; result := code_result |}])
  end.

Definition _completion_turn (self : RLM) (prompt : pyval)
  : M (World Ext) RLMIteration :=
  response ← handler_completion (lm_handler self) prompt PNone;
  let code_block_strs := extract_code_blocks response in
  code_blocks ← run_code_blocks self code_block_strs [];
  mret {| response := response; code_blocks := code_blocks |}.

Definition _default_answer (self : RLM) (message_history : list pyval) : string :=
  "The RLM ran out of iterations and did not find a final answer.".

(** How the [for i in range(max_iterations)] loop ends: by its [return], or
    by running out of iterations with the history built so far. *)
Inductive loop_exit : Type :=
  | Returned (final_answer : string)
  | Exhausted (message_history : list pyval).

(** [if final_answer:] on an [Optional[str]]. *)
Definition found (final_answer : option string) : bool :=
  match final_answer with
  | Some s => truthy (PStr s)
  | None => false
  end.

Fixpoint iterate (self : RLM) (n : nat) (message_history : list pyval)
  : M (World Ext) loop_exit :=
  match n with
  | O => mret (Exhausted message_history)
  | S n' =>
      iteration ← _completion_turn self (PList message_history);
      let final_answer := extract_final_answer iteration in
      if found final_answer then mret (Returned (default "" final_answer))
      else iterate self n' (message_history ++ format_iteration iteration)
  end.

(** [RLM.completion]. *)
Definition completion (self : RLM) (prompt : pyval) : M (World Ext) string :=
  let message_history := _setup_prompt self prompt in
  exit ← iterate self (Z.to_nat (max_iterations self)) message_history;
  match exit with
  | Returned final_answer => mret final_answer
  | Exhausted message_history => mret (_default_answer self message_history)
  end.

End Orchestrator.

Arguments RLM : clear implicits.

(** ** Words of the specification

    Predicates that state what the specification talks about, in its own
    terms, to be compared with what the code does. *)

Section SpecWords.
Context `{JsonCodec}.

(** The frame of a message: the big-endian length of the payload, then the
    payload. *)
Definition frame (data : pyval) : list byte :=
  let payload := json_dumps data in
  let n := Z.of_nat (length payload) in
  [byte_of_Z (n ≫ 24); byte_of_Z (n ≫ 16); byte_of_Z (n ≫ 8); byte_of_Z n]
    ++ payload.

(** The connection accepts the message: it is writable and the payload
    length fits the prefix. *)
Definition can_send (sock : socket) (data : pyval) : Prop :=
  send_fault sock = None ∧ Z.of_nat (length (json_dumps data)) < 2 ^ 32.

(** The socket after the frame of [data] has been written to it. *)
Definition sent (sock : socket) (data : pyval) : socket :=
  {| incoming := incoming sock; outgoing := outgoing sock ++ frame data;
     send_fault := None |}.

(** A connection on which the framed [data] arrives in one segment. *)
Definition delivering (data : pyval) : socket :=
  {| incoming := [Segment (frame data)]; outgoing := []; send_fault := None |}.
End SpecWords.

(** The serialized error response carrying [msg]. *)
Definition error_payload (msg : string) : pyval :=
  PDict (LMResponse.to_dict (LMResponse.error_response msg)).

(** An inbound payload that is not a well-formed request, with the message
    of the error response it calls for: bytes that do not decode, a JSON
    value that is not an object, an object without ["prompt"], and an object
    whose ["prompt"] is empty. *)
Inductive protocol_error : outcome pyval -> string -> Prop :=
  | malformed e : protocol_error (Raise e) (str_exn e)
  | not_an_object v :
      is_dict v = false ->
      protocol_error (Ok v) "Request must be a JSON object"
  | prompt_missing d :
      dict_lookup "prompt" d = None ->
      protocol_error (Ok (PDict d)) "Missing or invalid 'prompt' in request."
  | prompt_empty d v :
      dict_lookup "prompt" d = Some v -> truthy v = false ->
      protocol_error (Ok (PDict d)) "Missing or invalid 'prompt' in request.".

Section LoopWords.
Context {Ext : Type} `{Parsing}.

(** A client that always replies, and never with a final-answer marker. *)
Definition never_answers (client : BaseLM Ext) : Prop :=
  ∀ prompt x, ∃ reply x',
    lm_completion client prompt x = (Ok reply, x')
    ∧ ∀ blocks,
        found (extract_final_answer {| response := reply; code_blocks := blocks |})
        = false.

(** An environment that reports every execution as a result, failed or
    not. *)
Definition always_returns (env : BaseEnv Ext) : Prop :=
  ∀ code_str x, ∃ r x', execute_code env code_str x = (Ok r, x').

(** How an executed block shows in the record of executions. *)
Definition execution_of (block : CodeBlock) : string * outcome REPLResult :=
  (code block, Ok (result block)).
End LoopWords.

Section DepthWords.
Context {Ext : Type} `{JsonCodec}.

(** A depth check in front of nested invocations: when the configured
    depth leaves no room for nesting, a completion request that reaches the
    router of this orchestrator from inside its environment is not passed
    on to any model client. *)
Definition nested_calls_guarded (self : RLM Ext) : Prop :=
  max_depth self <= 0 ->
  ∀ (sock : socket) (w : World Ext),
    lm_calls (handle (lm_handler self) (sock, w)).2.2 = lm_calls w.

Definition with_max_depth (d : Z) (self : RLM Ext) : RLM Ext :=
  {| max_depth := d; max_iterations := max_iterations self;
     system_prompt := system_prompt self; lm_handler := lm_handler self;
     environment := environment self |}.
End DepthWords.

(** ** Scripted collaborators

    Test doubles in the manner of the specification's scenarios: a codec, a
    client that always gives the same reply, an environment, the parsing
    helpers and the platform.  The external state counts the calls made. *)

Definition quote_text (s : string) : string :=
  String "034"%char (s ++ String "034"%char "").

Fixpoint dumps_text (v : pyval) : string :=
  match v with
  | PNone => "null"
  | PBool true => "true"
  | PBool false => "false"
  | PInt n => pretty n
  | PStr s => quote_text s
  | PList l =>
      "[" ++ (fix items (l : list pyval) : string :=
                match l with
                | [] => ""
                | x :: l' =>
                    dumps_text x ++
                    match l' with [] => "" | _ => ", " ++ items l' end
                end) l ++ "]"
  | PDict d =>
      "{" ++ (fix items (d : pydict) : string :=
                match d with
                | [] => ""
                | (k, x) :: d' =>
                    quote_text k ++ ": " ++ dumps_text x ++
                    match d' with [] => "" | _ => ", " ++ items d' end
                end) d ++ "}"
  end.

(** The payloads the examples put on the wire. *)
Definition known_payloads : list pyval :=
  [ PList [];
    PDict [];
    PDict [("prompt", PStr "")];
    PDict [("prompt", PStr "2+2?")];
    PDict [("content", PStr "4")] ].

(** The codec of the examples: [dumps] writes JSON text for values whose
    strings need no escape, [loads] reads back the texts of
    [known_payloads] and rejects the rest. *)
#[global] Instance scripted_codec : JsonCodec := {|
  json_dumps v := String.list_byte_of_string (dumps_text v);
  json_loads bs :=
    match
      List.find (λ v, String.eqb (dumps_text v) (String.string_of_list_byte bs))
        known_payloads
    with
    | Some v => Ok v
    | None => Raise (Exn "JSONDecodeError" "Expecting value")
    end
|}.

Definition scripted_client (name reply : string) : BaseLM nat :=
  {| model_name := name; lm_completion := λ _ x, (Ok reply, S x) |}.

(** Runs a block: a division by zero ends up on [stderr], anything else is
    echoed on [stdout]. *)
Definition scripted_env : BaseEnv nat :=
  {| execute_code := λ code_str x,
       (Ok (if decide (code_str = "1/0") then
              {| stdout := ""; stderr := "ZeroDivisionError: division by zero";
                 locals := []; execution_time := None |}
            else
              {| stdout := code_str; stderr := ""; locals := [];
                 execution_time := None |}),
        S x) |}.

#[global] Instance scripted_parsing : Parsing := {|
  extract_code_blocks r :=
    if decide (r = "try both") then ["1/0"; "print(1)"] else [];
  extract_final_answer it :=
    if String.prefix "FINAL " (response it)
    then Some (String.substring 6 (String.length (response it) - 6)%nat (response it))
    else None;
  format_iteration it :=
    [PDict [("role", PStr "assistant"); ("content", PStr (response it))]]
|}.

#[global] Instance scripted_platform : Platform nat := {|
  environ k := if decide (k = "OPENAI_API_KEY") then Some "sk-test" else None;
  OpenAIClient _ _ := Ok (scripted_client "gpt" "try both");
  PortkeyClient _ _ := Ok (scripted_client "portkey" "FINAL 4");
  get_environment _ _ := Ok scripted_env;
  RLM_SYSTEM_PROMPT := "You are a recursive language model.";
  server_bind a := Ok (if a.2 =? 0 then 50007 else a.2)
|}.

Definition fresh_world : World nat :=
  {| ext := 0%nat; lm_calls := []; executed := [];
     heap := {[ default_environment_kwargs := [] ]} |}.

Definition scripted_handler : LMHandler nat :=
  register_client (LMHandler_init (scripted_client "gpt" "try both") None None)
    "portkey" (scripted_client "portkey" "FINAL 4").

Definition scripted_rlm (depth iterations : Z) : RLM nat :=
  {| max_depth := depth; max_iterations := iterations;
     system_prompt := RLM_SYSTEM_PROMPT; lm_handler := scripted_handler;
     environment := scripted_env |}.

(** A network on which every connection is accepted and every request is
    written, but no response arrives before the time-out set on the socket. *)
Definition silent_network : Network := {|
  connect _ _ :=
    Ok {| incoming := [Fault (Exn "TimeoutError" "timed out")]; outgoing := [];
          send_fault := None |}
|}.

(** A network whose peer accepts the connection, takes the request and
    closes without a reply. *)
Definition closing_network : Network := {|
  connect _ _ := Ok {| incoming := []; outgoing := []; send_fault := None |}
|}.

(** A client whose provider is down. *)
Definition failing_client (name msg : string) : BaseLM nat :=
  {| model_name := name;
     lm_completion := λ _ x, (Raise (Exn "ProviderError" msg), S x) |}.

Definition calculator_handler : LMHandler nat :=
  LMHandler_init (scripted_client "calc" "4") None None.

Definition failing_handler : LMHandler nat :=
  LMHandler_init (failing_client "down" "rate limited") None None.

(** A connection just opened: nothing has arrived on it and nothing has
    been written to it. *)
Definition opened : socket :=
  {| incoming := []; outgoing := []; send_fault := None |}.

(** The peer's end of a connection on which the bytes [bs] were written:
    they arrive there in one segment. *)
Definition arriving (bs : list byte) : socket :=
  {| incoming := [Segment bs]; outgoing := []; send_fault := None |}.

(** The connection [sock] once the bytes [bs] that its peer wrote have
    reached it. *)
Definition answered (sock : socket) (bs : list byte) : socket :=
  {| incoming := incoming sock ++ [Segment bs]; outgoing := outgoing sock;
     send_fault := send_fault sock |}.

(** An environment whose process dies on a division by zero. *)
Definition crashing_env : BaseEnv nat :=
  {| execute_code := λ code_str x,
       if decide (code_str = "1/0")
       then (Raise (Exn "RuntimeError" "environment lost"), S x)
       else (Ok {| stdout := code_str; stderr := ""; locals := [];
                   execution_time := None |}, S x) |}.

(** Orchestrators around one client and one environment. *)
Definition rlm_with (client : BaseLM nat) (env : BaseEnv nat) (iterations : Z)
  : RLM nat :=
  {| max_depth := 1; max_iterations := iterations;
     system_prompt := RLM_SYSTEM_PROMPT;
     lm_handler := LMHandler_init client None None;
     environment := env |}.

(** A world in which the caller holds a dict of its own, at location 1,
    beside the default object. *)
Definition world_with_kwargs : World nat :=
  {| ext := 0%nat; lm_calls := []; executed := [];
     heap := {[ default_environment_kwargs := []; 1%nat := [("timeout", PInt 5)] ]} |}.

(** ** The Portkey client ([clients/portkey.py]) *)

(** [CostSummary] of [base_lm.py]. *)
Module CostSummary.
Record t : Type := {
  total_calls : Z;
  total_cost : Z;
  total_input_tokens : Z;
  total_output_tokens : Z
}.
End CostSummary.

(** What the Portkey SDK hands back, as far as the client reads it: the
    content of each choice's message, and the token usage. *)
Record Usage : Type := {
  total_tokens : Z;
  prompt_tokens : Z;
  completion_tokens : Z
}.

Record ChatCompletions : Type := { choices : list string; usage : Usage }.

(** [isinstance(v, str)]. *)
Definition is_str (v : pyval) : bool :=
  match v with PStr _ => true | _ => false end.

Module Portkey.

(** The attributes of a [PortkeyClient] that its methods read and write. *)
Record t : Type := {
  model_name : string;
  call_count : Z;
  total_cost : Z;
  total_input_tokens : Z;
  total_output_tokens : Z
}.

(** [PortkeyClient(api_key, model_name, base_url)]: the key and the URL go to
    the SDK. *)
Definition init (model_name : string) : t :=
  {| model_name := model_name; call_count := 0; total_cost := 0;
     total_input_tokens := 0; total_output_tokens := 0 |}.

Definition _track_cost (response : ChatCompletions) (self : t) : t :=
  {| model_name := model_name self;
     call_count := call_count self + 1;
     total_cost := total_cost self + total_tokens (usage response);
     total_input_tokens := total_input_tokens self + prompt_tokens (usage response);
     total_output_tokens :=
       total_output_tokens self + completion_tokens (usage response) |}.

Definition get_cost_summary (self : t) : CostSummary.t :=
  {| CostSummary.total_calls := call_count self;
     CostSummary.total_cost := total_cost self;
     CostSummary.total_input_tokens := total_input_tokens self;
     CostSummary.total_output_tokens := total_output_tokens self |}.

Section Api.
(** [self.client.chat.completions.create(model=..., messages=...)], over the
    state [A] of the service. *)
Context {A : Type} (create : pyval -> pyval -> A -> outcome ChatCompletions * A).

Definition completion (prompt model : pyval) : M (t * A) string := fun st =>
  if is_str prompt then
    let messages := PList [PDict [("role", PStr "user"); ("content", prompt)]] in
    let actual_model := if truthy model then model else PStr (model_name st.1) in
    match create actual_model messages st.2 with
    | (Raise e, api) => (Raise e, (st.1, api))
    | (Ok response, api) =>
        let self := _track_cost response st.1 in
        match choices response with
        | [] => (Raise (Exn "IndexError" "list index out of range"), (self, api))
        | content :: _ => (Ok content, (self, api))
        end
    end
  else
    (Raise (Exn "ValueError"
              ("Invalid prompt type: <class '" ++ type_name prompt ++ "'>")), st).

(** The client as the router and the loop call it: [completion(prompt)],
    without a model. *)
Definition as_client (name : string) : BaseLM (t * A) :=
  @Build_BaseLM (t * A) name (λ prompt st, completion prompt PNone st).
End Api.

End Portkey.

(** A service that answers every request with one choice. *)
Definition scripted_api (model messages : pyval) (n : nat)
  : outcome ChatCompletions * nat :=
  (Ok {| choices := ["4"];
         usage := {| total_tokens := 12; prompt_tokens := 9;
                     completion_tokens := 3 |} |}, S n).

(** A service that answers without any choice. *)
Definition choiceless_api (model messages : pyval) (n : nat)
  : outcome ChatCompletions * nat :=
  (Ok {| choices := [];
         usage := {| total_tokens := 9; prompt_tokens := 9;
                     completion_tokens := 0 |} |}, S n).

(** An environment that runs nothing. *)
Definition idle_env {Ext : Type} : BaseEnv Ext :=
  {| execute_code := λ _ x,
       (Ok {| stdout := ""; stderr := ""; locals := []; execution_time := None |}, x) |}.

(** An orchestrator whose backend is a Portkey client. *)
Definition portkey_rlm : RLM (Portkey.t * nat) :=
  {| max_depth := 1; max_iterations := 10; system_prompt := "";
     lm_handler :=
       LMHandler_init (Portkey.as_client scripted_api "@openai/gpt-5-nano") None None;
     environment := idle_env |}.

Definition portkey_world : World (Portkey.t * nat) :=
  {| ext := (Portkey.init "@openai/gpt-5-nano", 0%nat); lm_calls := [];
     executed := []; heap := ∅ |}.

(** A codec like [scripted_codec], reading back the texts of a given table
    of payloads. *)
Definition table_codec (table : list pyval) : JsonCodec := {|
  json_dumps v := String.list_byte_of_string (dumps_text v);
  json_loads bs :=
    match
      List.find (λ v, String.eqb (dumps_text v) (String.string_of_list_byte bs))
        table
    with
    | Some v => Ok v
    | None => Raise (Exn "JSONDecodeError" "Expecting value")
    end
|}.

(** The blocks of a turn against the environment itself: [codes] are handed
    to [execute_code] one after the other, each in the state the one before
    left, and every block carries the result that its own execution gave. *)
Inductive executes_in_order {Ext : Type} (env : BaseEnv Ext)
  : list string -> Ext -> list CodeBlock -> Ext -> Prop :=
  | executes_none x : executes_in_order env [] x [] x
  | executes_next code_str rest x r x1 blocks x' :
      execute_code env code_str x = (Ok r, x1) ->
      executes_in_order env rest x1 blocks x' ->
      executes_in_order env (code_str :: rest) x
        ({| code := code_str; result := r |} :: blocks) x'.

Section HistoryWords.
Context {Ext : Type} `{Parsing}.

(** The completions a run of at most [n] turns asks, started on the history
    [hist] in the world [w]: none when no turn is left; otherwise the default
    client is asked with [hist] itself, and when that turn returns an
    iteration with no final answer, the run goes on with [hist] extended by
    the formatting of that very iteration, in the world the turn left.  A
    turn that raises, or brings the final answer, is the last. *)
Inductive asks_histories (self : RLM Ext)
  : nat -> list pyval -> World Ext -> list (string * pyval) -> Prop :=
  | asks_no_more hist w : asks_histories self 0 hist w []
  | asks_until_raise n hist w e w1 :
      _completion_turn self (PList hist) w = (Raise e, w1) ->
      asks_histories self (S n) hist w
        [(model_name (default_client (lm_handler self)), PList hist)]
  | asks_until_answer n hist w iteration w1 :
      _completion_turn self (PList hist) w = (Ok iteration, w1) ->
      found (extract_final_answer iteration) = true ->
      asks_histories self (S n) hist w
        [(model_name (default_client (lm_handler self)), PList hist)]
  | asks_and_goes_on n hist w iteration w1 rest :
      _completion_turn self (PList hist) w = (Ok iteration, w1) ->
      found (extract_final_answer iteration) = false ->
      asks_histories self n (hist ++ format_iteration iteration)%list w1 rest ->
      asks_histories self (S n) hist w
        ((model_name (default_client (lm_handler self)), PList hist) :: rest).
End HistoryWords.

(** ** The exchange and its time-out ([comms_utils.py])

    [socket_request] sets a time-out on its socket before it connects.  To
    state what that time-out bounds, the functions of the exchange are
    embedded once more over sockets whose blocking calls take time: the peer
    and the network decide how long each call would need, the socket's
    time-out decides whether the call waits that long, and every call leaves
    in the socket how it ended and after how long. *)

Module Timed.

(** What a blocking call meets: [delay] time-units after it is made, it
    would complete with [brings]. *)
Record after (A : Type) : Type := After { delay : Z; brings : A }.
Arguments After {A} delay brings.
Arguments delay {A} _.
Arguments brings {A} _.

(** The far side of a connection: how [connect] and [sendall] go there
    ([None]: well; [Some e]: the call raises [e]), and what it sends back. *)
Record peer : Type := Peer {
  accepting : after (option exn);
  taking : after (option exn);
  replying : list (after recv_event)
}.

(** The network as a client sees it: who is behind each address. *)
Class Network : Type := {
  reach : string * Z -> peer
}.

(** How a blocking call ended: it returned or raised on its own account
    after some time, or the socket gave it up when its time-out had passed. *)
Inductive blocked : Type :=
  | Returned (after : Z)
  | GivenUp (after : Z).

Definition duration (b : blocked) : Z :=
  match b with Returned d => d | GivenUp d => d end.

Record socket : Type := Socket {
  gettimeout : option Z;
  far : peer;
  outgoing : list byte;
  calls : list blocked
}.

(** The far side of a socket that is not connected. *)
Definition nobody : peer :=
  {| accepting := After 0 None;
     taking := After 0 (Some (Exn "BrokenPipeError" "[Errno 32] Broken pipe"));
     replying :=
       [After 0 (Fault (Exn "OSError"
                          "[Errno 107] Transport endpoint is not connected"))] |}.

(** [socket.socket(socket.AF_INET, socket.SOCK_STREAM)]: blocking, not
    connected. *)
Definition socket_socket : socket :=
  {| gettimeout := None; far := nobody; outgoing := []; calls := [] |}.

(** [sock.settimeout(value)]. *)
Definition settimeout (value : Z) : M socket unit := fun s =>
  if value <? 0 then (Raise (Exn "ValueError" "Timeout value out of range"), s)
  else (Ok tt, {| gettimeout := Some value; far := far s;
                  outgoing := outgoing s; calls := calls s |}).

(** A call that would need [due] time-units is given up after [t] on a
    socket whose time-out [t] is shorter; a socket without a time-out
    waits. *)
Definition gives_up (limit : option Z) (due : Z) : option Z :=
  match limit with
  | Some t => if t <? due then Some t else None
  | None => None
  end.

(** The exception of a call that was given up: [socket.timeout], or
    [BlockingIOError] on a socket that a zero time-out made non-blocking. *)
Definition expiry (t : Z) (would_block : string) : exn :=
  if t =? 0 then Exn "BlockingIOError" would_block
  else Exn "TimeoutError" "timed out".

Definition ended (b : blocked) (s : socket) : socket :=
  {| gettimeout := gettimeout s; far := far s; outgoing := outgoing s;
     calls := calls s ++ [b] |}.

(** [sock.connect(address)]. *)
Definition connect `{Network} (address : string * Z) : M socket unit := fun s =>
  let p := reach address in
  match gives_up (gettimeout s) (delay (accepting p)) with
  | Some t => (Raise (expiry t "[Errno 115] Operation now in progress"),
               ended (GivenUp t) s)
  | None =>
      match brings (accepting p) with
      | Some e => (Raise e, ended (Returned (delay (accepting p))) s)
      | None =>
          (Ok tt,
           ended (Returned (delay (accepting p)))
             {| gettimeout := gettimeout s; far := p; outgoing := outgoing s;
                calls := calls s |})
      end
  end.

(** [sock.sendall(bs)]; the time-out bounds the whole of it. *)
Definition sendall (bs : list byte) : M socket unit := fun s =>
  match gives_up (gettimeout s) (delay (taking (far s))) with
  | Some t => (Raise (expiry t "[Errno 11] Resource temporarily unavailable"),
               ended (GivenUp t) s)
  | None =>
      match brings (taking (far s)) with
      | Some e => (Raise e, ended (Returned (delay (taking (far s)))) s)
      | None =>
          (Ok tt,
           ended (Returned (delay (taking (far s))))
             {| gettimeout := gettimeout s; far := far s;
                outgoing := outgoing s ++ bs; calls := calls s |})
      end
  end.

(** One [sock.recv(n)] for [n > 0], [waited] time-units into the call: how
    it ends, and what is left to arrive.  A segment read in part leaves its
    rest at hand. *)
Fixpoint recv_events (limit : option Z) (n : nat) (waited : Z)
    (evs : list (after recv_event))
  : outcome (list byte) * blocked * list (after recv_event) :=
  match evs with
  | [] => (Ok [], Returned waited, [])
  | After d ev :: rest =>
      match gives_up limit (waited + d) with
      | Some t =>
          (Raise (expiry t "[Errno 11] Resource temporarily unavailable"),
           GivenUp t, After (waited + d - t) ev :: rest)
      | None =>
          match ev with
          | Fault e => (Raise e, Returned (waited + d), rest)
          | Segment [] => recv_events limit n (waited + d) rest
          | Segment bs =>
              (Ok (take n bs), Returned (waited + d),
               match drop n bs with
               | [] => rest
               | tl => After 0 (Segment tl) :: rest
               end)
          end
      end
  end.

Definition recv (n : nat) : M socket (list byte) := fun s =>
  let '(r, b, evs) := recv_events (gettimeout s) n 0 (replying (far s)) in
  (r, ended b
        {| gettimeout := gettimeout s;
           far := {| accepting := accepting (far s); taking := taking (far s);
                     replying := evs |};
           outgoing := outgoing s; calls := calls s |}).

Section Framing.
Context `{JsonCodec}.

Definition socket_send (data : pyval) : M socket unit :=
  let payload := json_dumps data in
  header ← lift (pack_u32 (Z.of_nat (length payload)));
  sendall (header ++ payload).

Fixpoint recv_payload (fuel length : nat) (payload : list byte)
  : M socket (list byte) :=
  if (List.length payload <? length)%nat then
    match fuel with
    | O => mret payload
    | S fuel' =>
        chunk ← recv (length - List.length payload);
        match chunk with
        | [] => raise (ConnectionError "Connection closed before message complete")
        | _ => recv_payload fuel' length (payload ++ chunk)
        end
    end
  else mret payload.

Definition socket_recv : M socket pyval :=
  raw_len ← recv 4;
  match raw_len with
  | [] => mret (PDict [])
  | _ =>
      length ← lift (unpack_u32 raw_len);
      payload ← recv_payload (Z.to_nat length) (Z.to_nat length) [];
      lift (json_loads payload)
  end.

End Framing.

Section Requests.
Context `{JsonCodec} `{Network}.

(** The state of the caller is the list of the blocking calls it has been
    through; the socket lives for one request and leaves its calls there. *)
Definition socket_request (address : string * Z) (data : pyval)
    (timeout : option Z) : M (list blocked) pyval := fun past =>
  let '(r, sock) :=
    (settimeout (default default_timeout timeout);;
     connect address;;
     socket_send data;;
     socket_recv) socket_socket in
  (r, (past ++ calls sock)%list).

Definition send_lm_request (address : string * Z) (request : LMRequest.t)
    (timeout : option Z) : M (list blocked) LMResponse.t :=
  try_except
    (response_data ← socket_request address (PDict (LMRequest.to_dict request))
                       timeout;
     lift (response_from_value response_data))
    (λ e, mret (LMResponse.error_response ("Request failed: " ++ str_exn e))).

End Requests.

(** The time that a list of blocking calls took. *)
Definition elapsed (past : list blocked) : Z := foldr Z.add 0 (duration <$> past).

End Timed.

Section TimeoutWords.
Context `{JsonCodec} `{Timed.Network}.

(** The time-out bounds the entire exchange: from the call of the helper to
    its return, no more time passes than the time-out, 300 when the caller
    gives none. *)
Definition exchange_within_timeout (address : string * Z)
    (request : LMRequest.t) (timeout : option Z) : Prop :=
  Timed.elapsed (Timed.send_lm_request address request timeout []).2
  <= default 300 timeout.

(** The time-out bounds every blocking call of the exchange: the connect,
    the send and each single receive. *)
Definition calls_within_timeout (address : string * Z)
    (request : LMRequest.t) (timeout : option Z) : Prop :=
  Forall (λ b, Timed.duration b <= default 300 timeout)
    (Timed.send_lm_request address request timeout []).2.
End TimeoutWords.

(** A router that is slow but within the time-out at every step: it
    accepts after 100 time-units, takes the request at once, and sends the
    prefix of its reply after 250 more and the payload after another 250. *)
Definition slow_network : Timed.Network := {|
  Timed.reach _ :=
    let reply := frame (PDict [("content", PStr "4")]) in
    {| Timed.accepting := Timed.After 100 None;
       Timed.taking := Timed.After 0 None;
       Timed.replying :=
         [Timed.After 250 (Segment (take 4 reply));
          Timed.After 250 (Segment (drop 4 reply))] |}
|}.

(** A router that accepts and takes the request, and never replies: its
    first byte would come after a thousand time-units. *)
Definition mute_network : Timed.Network := {|
  Timed.reach _ :=
    {| Timed.accepting := Timed.After 1 None;
       Timed.taking := Timed.After 0 None;
       Timed.replying := [Timed.After 1000 (Segment [])] |}
|}.

(** A computation on a socket whose time-out is [t] keeps within it: the
    time-out stays, every blocking call it makes ends within [t], and one
    that is given up is given up after [t] and makes the computation raise
    the exception of the time-out. *)
Definition keeps_within {A : Type} (t : Z) (m : M Timed.socket A) : Prop :=
  ∀ s, Timed.gettimeout s = Some t ->
    Timed.gettimeout (m s).2 = Some t
    ∧ ∃ spent,
        Timed.calls (m s).2 = (Timed.calls s ++ spent)%list
        ∧ Forall (λ b, Timed.duration b <= t) spent
        ∧ ∀ x, In (Timed.GivenUp x) spent ->
            x = t ∧ ∃ msg, (m s).1 = Raise (Timed.expiry t msg).

(** *** The exchange without its times

    Under a time-out [t], a socket of [Timed] is a socket of the embedding
    above: an event that comes too late is the fault of the time-out, and so
    is a send that takes too long. *)

Fixpoint untimed_events (t waited : Z) (evs : list (Timed.after recv_event))
  : list recv_event :=
  match evs with
  | [] => []
  | Timed.After d ev :: rest =>
      if t <? waited + d then
        [Fault (Timed.expiry t "[Errno 11] Resource temporarily unavailable")]
      else
        match ev with
        | Segment [] => untimed_events t (waited + d) rest
        | _ => ev :: untimed_events t 0 rest
        end
  end.

Definition untimed_send_fault (t : Z) (taking : Timed.after (option exn))
  : option exn :=
  if t <? Timed.delay taking then
    Some (Timed.expiry t "[Errno 11] Resource temporarily unavailable")
  else Timed.brings taking.

Definition untimed_socket (t : Z) (s : Timed.socket) : socket :=
  {| incoming := untimed_events t 0 (Timed.replying (Timed.far s));
     outgoing := Timed.outgoing s;
     send_fault := untimed_send_fault t (Timed.taking (Timed.far s)) |}.

Definition untimed_network `{Timed.Network} : Network := {|
  connect address t :=
    if t <? 0 then Raise (Exn "ValueError" "Timeout value out of range")
    else
      let p := Timed.reach address in
      if t <? Timed.delay (Timed.accepting p) then
        Raise (Timed.expiry t "[Errno 115] Operation now in progress")
      else
        match Timed.brings (Timed.accepting p) with
        | Some e => Raise e
        | None =>
            Ok (untimed_socket t
                  {| Timed.gettimeout := Some t; Timed.far := p;
                     Timed.outgoing := []; Timed.calls := [] |})
        end
|}.

(** The two embeddings of a computation agree: run on a socket with
    time-out [t] and on the same socket without its times, they end alike,
    and when they return they leave the same socket. *)
Definition agrees {A : Type} (t : Z) (timed : M Timed.socket A)
    (untimed : M socket A) : Prop :=
  ∀ s, Timed.gettimeout s = Some t ->
    (untimed (untimed_socket t s)).1 = (timed s).1
    ∧ Timed.gettimeout (timed s).2 = Some t
    ∧ ∀ a, (timed s).1 = Ok a ->
        (untimed (untimed_socket t s)).2 = untimed_socket t (timed s).2.

(** * Properties *)

(** ** Dicts *)

Lemma dict_lookup_set_eq k v d : dict_lookup k (dict_set k v d) = Some v.
Proof.
  induction d as [|[k' v'] d IH]; simpl.
  - by rewrite decide_True.
  - destruct (decide (k = k')) as [->|Hne]; simpl.
    + by rewrite decide_True.
    + by rewrite decide_False.
Qed.

Lemma dict_lookup_set_ne k k' v d :
  k ≠ k' -> dict_lookup k' (dict_set k v d) = dict_lookup k' d.
Proof.
  intros Hne. induction d as [|[k0 v0] d IH]; simpl.
  - rewrite decide_False; [done | congruence].
  - destruct (decide (k = k0)) as [->|Hk]; simpl.
    + rewrite !decide_False; [done | congruence | congruence].
    + destruct (decide (k' = k0)); [done | apply IH].
Qed.

(** ** Message dataclasses *)

Lemma request_roundtrip (r : LMRequest.t) :
  LMRequest.from_dict (LMRequest.to_dict r) = r.
Proof.
  destruct r as [p m]. unfold LMRequest.to_dict, LMRequest.from_dict, dict_get.
  destruct m; reflexivity.
Qed.

(** C2. Decoding the encoded form of a valid request, one whose prompt is
    not empty, gives the request back: [from_dict (to_dict r) = r], whether
    the prompt is a string or a structured list of turns, and with or
    without a model override. *)
Theorem C2_request_roundtrip (r : LMRequest.t) :
  truthy (LMRequest.prompt r) = true ->
  LMRequest.from_dict (LMRequest.to_dict r) = r.
Proof. intros _. apply request_roundtrip. Qed.

Lemma C2_request_roundtrip_witness :
  let plain := {| LMRequest.prompt := PStr "2+2?"; LMRequest.model := PNone |} in
  let turns :=
    {| LMRequest.prompt :=
         PList [PDict [("role", PStr "user"); ("content", PStr "2+2?")]];
       LMRequest.model := PStr "portkey" |} in
  LMRequest.from_dict (LMRequest.to_dict plain) = plain
  ∧ LMRequest.from_dict (LMRequest.to_dict turns) = turns.
Proof.
  split.
  - apply (C2_request_roundtrip {| LMRequest.prompt := PStr "2+2?";
                                   LMRequest.model := PNone |}).
    reflexivity.
  - apply (C2_request_roundtrip
             {| LMRequest.prompt :=
                  PList [PDict [("role", PStr "user"); ("content", PStr "2+2?")]];
                LMRequest.model := PStr "portkey" |}).
    reflexivity.
Defined.

(** C6. A serialized response carries exactly one of the keys ["content"]
    and ["error"], the former when the response is successful and the latter
    when it is not; a response is successful exactly when its error is
    absent; and a successful response without content serializes the empty
    string. *)
Theorem C6_response_one_key (r : LMResponse.t) :
  let d := LMResponse.to_dict r in
  ((LMResponse.success r = true ∧ dict_keys d = ["content"])
   ∨ (LMResponse.success r = false ∧ dict_keys d = ["error"]))
  ∧ ¬ ("content" ∈ dict_keys d ∧ "error" ∈ dict_keys d)
  ∧ (LMResponse.success r = true ↔ LMResponse.error r = PNone)
  ∧ LMResponse.to_dict {| LMResponse.content := PNone; LMResponse.error := PNone |}
    = [("content", PStr "")].
Proof.
  destruct r as [c e]. unfold LMResponse.to_dict, LMResponse.success. simpl.
  repeat split.
  - destruct e; simpl; auto.
  - destruct e; simpl; intros [Hc He];
      apply list_elem_of_In in Hc, He; simpl in Hc, He;
      intuition congruence.
  - destruct e; simpl; congruence.
  - destruct e; simpl; congruence.
Qed.

(** ** Framing *)

Lemma Z_of_byte_of_Z (n : Z) : Z_of_byte (byte_of_Z n) = n mod 256.
Proof.
  unfold Z_of_byte, byte_of_Z.
  assert (Hb : 0 <= n mod 256 < 256) by (apply Z.mod_pos_bound; lia).
  destruct (Byte.of_N (Z.to_N (n mod 256))) as [b|] eqn:Hof; simpl.
  - apply Byte.to_of_N in Hof. rewrite Hof. lia.
  - apply Byte.of_N_None_iff in Hof. lia.
Qed.

Lemma Z_of_byte_bounded (b : byte) : 0 <= Z_of_byte b < 256.
Proof.
  unfold Z_of_byte. pose proof (Byte.to_N_bounded b). lia.
Qed.

(** The length prefix is read back as written. *)
Lemma unpack_pack_u32 (n : Z) :
  0 <= n < 2 ^ 32 ->
  ∃ hdr, pack_u32 n = Ok hdr ∧ length hdr = 4%nat ∧ unpack_u32 hdr = Ok n.
Proof.
  intros Hn. unfold pack_u32.
  replace ((0 <=? n) && (n <? 2 ^ 32)) with true
    by (symmetry; apply andb_true_iff; split; [apply Z.leb_le | apply Z.ltb_lt]; lia).
  eexists. split; [reflexivity|]. split; [reflexivity|].
  unfold unpack_u32. f_equal. rewrite !Z_of_byte_of_Z.
  rewrite !Z.shiftl_mul_pow2, !Z.shiftr_div_pow2 by lia.
  change (2 ^ 32) with 4294967296 in Hn.
  change (2 ^ 24) with 16777216. change (2 ^ 16) with 65536. change (2 ^ 8) with 256.
  Z.div_mod_to_equations. lia.
Qed.

Lemma recv_events_length n evs bs evs' :
  recv_events n evs = (Ok bs, evs') -> (length bs <= n)%nat.
Proof.
  revert bs evs'. induction evs as [|[seg|e] evs IH]; intros bs evs' Hr; simpl in Hr.
  - inversion Hr. simpl. lia.
  - destruct seg as [|b seg]; [by eapply IH|].
    inversion Hr. rewrite length_take. lia.
  - discriminate.
Qed.

Lemma recv_length n s bs s' : recv n s = (Ok bs, s') -> (length bs <= n)%nat.
Proof.
  unfold recv. destruct (recv_events n (incoming s)) as [r evs] eqn:Hr.
  intros Heq. inversion Heq; subst. by eapply recv_events_length.
Qed.

(** A closed connection: [recv] gives [b""], over and over. *)
Lemma recv_closed n s : incoming s = [] -> recv n s = (Ok [], s).
Proof. destruct s as [i o f]. simpl. intros ->. reflexivity. Qed.

(** A segment that fits the request is handed over whole. *)
Lemma recv_whole_segment n bs rest o f :
  bs ≠ [] -> (length bs <= n)%nat ->
  recv n {| incoming := Segment bs :: rest; outgoing := o; send_fault := f |}
  = (Ok bs, {| incoming := rest; outgoing := o; send_fault := f |}).
Proof.
  intros Hne Hlen. unfold recv. simpl.
  destruct bs as [|b bs]; [done|].
  rewrite take_ge, drop_ge by done. reflexivity.
Qed.

Section FramingFacts.
Context `{JsonCodec}.

(** The fuel never runs out: what the loop returns has exactly the
    declared length. *)
Lemma recv_payload_exact fuel n acc s p s' :
  (n - length acc <= fuel)%nat -> (length acc <= n)%nat ->
  recv_payload fuel n acc s = (Ok p, s') -> length p = n.
Proof.
  revert acc s. induction fuel as [|fuel IH]; intros acc s Hfuel Hacc; simpl.
  - destruct (length acc <? n)%nat eqn:Hlt.
    + apply Nat.ltb_lt in Hlt. lia.
    + apply Nat.ltb_ge in Hlt. intros Heq. inversion Heq; subst. lia.
  - destruct (length acc <? n)%nat eqn:Hlt.
    + apply Nat.ltb_lt in Hlt. unfold mbind, M_bind.
      destruct (recv (n - length acc) s) as [[chunk|e] s1] eqn:Hrecv; [|done].
      destruct chunk as [|b chunk]; [done|].
      apply recv_length in Hrecv. simpl in Hrecv.
      apply IH; rewrite length_app; simpl; lia.
    + apply Nat.ltb_ge in Hlt. intros Heq. inversion Heq; subst. lia.
Qed.

(** Buffering across partial reads: however the payload is cut into
    segments, the loop returns it whole and leaves what follows it. *)
Lemma recv_payload_reassembles (segs : list (list byte)) : ∀ fuel n acc rest o f,
  Forall (λ bs, bs ≠ []) segs ->
  (length acc + length (concat segs) = n)%nat ->
  (length (concat segs) <= fuel)%nat ->
  recv_payload fuel n acc
    {| incoming := (Segment <$> segs) ++ rest; outgoing := o; send_fault := f |}
  = (Ok (acc ++ concat segs)%list,
     {| incoming := rest; outgoing := o; send_fault := f |}).
Proof.
  induction segs as [|bs segs IH]; intros fuel n acc rest o f Hne Hlen Hfuel.
  - simpl in *. rewrite app_nil_r.
    destruct fuel; simpl;
      (replace (length acc <? n)%nat with false
         by (symmetry; apply Nat.ltb_ge; lia)); reflexivity.
  - inversion_clear Hne as [|? ? Hbs Hsegs].
    simpl in Hlen, Hfuel. rewrite length_app in Hlen, Hfuel.
    assert (0 < length bs)%nat by (destruct bs; [done | simpl; lia]).
    destruct fuel as [|fuel]; [lia|]. simpl.
    replace (length acc <? n)%nat with true by (symmetry; apply Nat.ltb_lt; lia).
    unfold mbind, M_bind.
    rewrite recv_whole_segment by (done || lia).
    destruct bs as [|b bs]; [done|].
    rewrite IH; [| done | rewrite length_app; simpl in *; lia | simpl in *; lia].
    by rewrite <- app_assoc.
Qed.

(** The peer closes in the middle of the payload. *)
Lemma recv_payload_truncated (segs : list (list byte)) : ∀ fuel n acc o f,
  Forall (λ bs, bs ≠ []) segs ->
  (length acc + length (concat segs) < n)%nat ->
  (n - length acc <= fuel)%nat ->
  recv_payload fuel n acc
    {| incoming := Segment <$> segs; outgoing := o; send_fault := f |}
  = (Raise (ConnectionError "Connection closed before message complete"),
     {| incoming := []; outgoing := o; send_fault := f |}).
Proof.
  induction segs as [|bs segs IH]; intros fuel n acc o f Hne Hlen Hfuel.
  - simpl in *. destruct fuel as [|fuel]; [lia|]. simpl.
    replace (length acc <? n)%nat with true by (symmetry; apply Nat.ltb_lt; lia).
    reflexivity.
  - inversion_clear Hne as [|? ? Hbs Hsegs].
    simpl in Hlen. rewrite length_app in Hlen.
    assert (0 < length bs)%nat by (destruct bs; [done | simpl; lia]).
    destruct fuel as [|fuel]; [lia|]. simpl.
    replace (length acc <? n)%nat with true by (symmetry; apply Nat.ltb_lt; lia).
    unfold mbind, M_bind.
    rewrite recv_whole_segment by (done || lia).
    destruct bs as [|b bs]; [done|].
    apply IH; [done | rewrite length_app; simpl in *; lia
              | rewrite length_app; simpl in *; lia].
Qed.

(** Closed before any byte of the prefix: no message. *)
Lemma socket_recv_closed s : incoming s = [] -> socket_recv s = (Ok (PDict []), s).
Proof.
  intros Hs. unfold socket_recv, mbind, M_bind. by rewrite recv_closed.
Qed.

(** Fewer than four bytes of the prefix arrive in the first read:
    [struct.unpack] raises, whatever comes next. *)
Lemma socket_recv_short_prefix bs rest o f :
  (0 < length bs < 4)%nat ->
  socket_recv {| incoming := Segment bs :: rest; outgoing := o; send_fault := f |}
  = (Raise (struct_error "unpack requires a buffer of 4 bytes"),
     {| incoming := rest; outgoing := o; send_fault := f |}).
Proof.
  intros Hlen. unfold socket_recv, mbind, M_bind.
  rewrite recv_whole_segment by (destruct bs; simpl in *; (done || lia)).
  destruct bs as [|a [|b [|c [|d bs]]]]; simpl in Hlen; try lia; reflexivity.
Qed.
End FramingFacts.

Section WireFacts.
Context `{JsonCodec}.

(** A whole frame, cut into segments anywhere after its prefix, is received
    as the payload that was declared. *)
Lemma socket_recv_reassembles hdr first (segs : list (list byte)) rest o f :
  length hdr = 4%nat ->
  unpack_u32 hdr = Ok (Z.of_nat (length (first ++ concat segs)%list)) ->
  Forall (λ bs, bs ≠ []) segs ->
  socket_recv
    {| incoming := Segment (hdr ++ first) :: (Segment <$> segs) ++ rest;
       outgoing := o; send_fault := f |}
  = (json_loads (first ++ concat segs)%list,
     {| incoming := rest; outgoing := o; send_fault := f |}).
Proof.
  intros Hhdr Hunpack Hsegs.
  unfold socket_recv, mbind, M_bind.
  assert (Hrecv :
    recv 4 {| incoming := Segment (hdr ++ first) :: (Segment <$> segs) ++ rest;
              outgoing := o; send_fault := f |}
    = (Ok hdr,
       {| incoming :=
            (Segment <$> (match first with [] => segs | _ => first :: segs end))
              ++ rest;
          outgoing := o; send_fault := f |})).
  { unfold recv. simpl.
    destruct hdr as [|a [|b [|c [|d [|x hdr]]]]]; simpl in Hhdr; try lia.
    simpl. destruct first; reflexivity. }
  rewrite Hrecv.
  destruct hdr as [|a hdr]; [simpl in Hhdr; lia|].
  unfold lift at 1. rewrite Hunpack. rewrite Nat2Z.id.
  assert (Hcat : concat (match first with [] => segs | _ => first :: segs end)
                 = (first ++ concat segs)%list) by (by destruct first).
  rewrite <- Hcat.
  rewrite recv_payload_reassembles; [reflexivity | | simpl; lia | lia].
  destruct first; [done | by constructor].
Qed.

(** The peer closes after the prefix and before the whole payload. *)
Lemma socket_recv_truncated hdr first (segs : list (list byte)) n o f :
  length hdr = 4%nat ->
  unpack_u32 hdr = Ok n ->
  Forall (λ bs, bs ≠ []) segs ->
  Z.of_nat (length (first ++ concat segs)%list) < n ->
  socket_recv
    {| incoming := Segment (hdr ++ first) :: (Segment <$> segs);
       outgoing := o; send_fault := f |}
  = (Raise (ConnectionError "Connection closed before message complete"),
     {| incoming := []; outgoing := o; send_fault := f |}).
Proof.
  intros Hhdr Hunpack Hsegs Hshort.
  unfold socket_recv, mbind, M_bind.
  assert (Hrecv :
    recv 4 {| incoming := Segment (hdr ++ first) :: (Segment <$> segs);
              outgoing := o; send_fault := f |}
    = (Ok hdr,
       {| incoming :=
            Segment <$> (match first with [] => segs | _ => first :: segs end);
          outgoing := o; send_fault := f |})).
  { unfold recv. simpl.
    destruct hdr as [|a [|b [|c [|d [|x hdr]]]]]; simpl in Hhdr; try lia.
    simpl. destruct first; reflexivity. }
  rewrite Hrecv.
  destruct hdr as [|a hdr]; [simpl in Hhdr; lia|].
  unfold lift at 1. rewrite Hunpack.
  assert (Hcat : concat (match first with [] => segs | _ => first :: segs end)
                 = (first ++ concat segs)%list) by (by destruct first).
  rewrite recv_payload_truncated; [reflexivity | | simpl; rewrite Hcat; lia | simpl; lia].
  destruct first; [done | by constructor].
Qed.

(** Writing a message appends its frame. *)
Lemma socket_send_ok sock data :
  can_send sock data -> socket_send data sock = (Ok tt, sent sock data).
Proof.
  intros [Hfault Hfit]. unfold socket_send, mbind, M_bind, lift, pack_u32.
  replace ((0 <=? Z.of_nat (length (json_dumps data)))
           && (Z.of_nat (length (json_dumps data)) <? 2 ^ 32)) with true
    by (symmetry; apply andb_true_iff; split;
        [apply Z.leb_le | apply Z.ltb_lt]; lia).
  unfold sendall. rewrite Hfault. reflexivity.
Qed.

(** A message framed by the sender and delivered in one piece is decoded
    from the very bytes that were encoded. *)
Lemma socket_recv_frame data :
  Z.of_nat (length (json_dumps data)) < 2 ^ 32 ->
  socket_recv (delivering data)
  = (json_loads (json_dumps data),
     {| incoming := []; outgoing := []; send_fault := None |}).
Proof.
  intros Hfit.
  destruct (unpack_pack_u32 (Z.of_nat (length (json_dumps data))))
    as (hdr & Hpack & Hlen & Hunpack); [lia|].
  unfold pack_u32 in Hpack.
  destruct ((0 <=? _) && _) in Hpack; [|done].
  injection Hpack as <-.
  pose proof (socket_recv_reassembles _ (json_dumps data) [] [] [] None Hlen) as Hr.
  change (concat []) with (@nil byte) in Hr. rewrite !app_nil_r in Hr.
  unfold delivering, frame. exact (Hr Hunpack (Forall_nil_2 _)).
Qed.

End WireFacts.

(** C3, at the input where the code departs from it.  The peer sends two of
    the four bytes of a length prefix and closes the connection: no length
    prefix has been obtained, yet the receiver does not report "no message"
    ([{}]) but raises [struct.error], with every codec. *)
Theorem C3_partial_prefix_raises `{JsonCodec} :
  socket_recv {| incoming := [Segment [x00; x00]]; outgoing := [];
                 send_fault := None |}
  = (Raise (struct_error "unpack requires a buffer of 4 bytes"),
     {| incoming := []; outgoing := []; send_fault := None |}).
Proof. apply socket_recv_short_prefix. simpl. lia. Qed.

(** ** The request router *)

Section RouterFacts.
Context {Ext : Type} `{JsonCodec}.
Implicit Types (handler : LMHandler Ext) (w : World Ext) (sock : socket).

(** Sending a response touches the connection only. *)
Lemma send_response_world r sock w : (send_response r (sock, w)).2.2 = w.
Proof.
  unfold send_response, on_fst. simpl.
  by destruct (socket_send _ sock) as [res sock'].
Qed.

Lemma send_response_ok r sock w :
  can_send sock (PDict (LMResponse.to_dict r)) ->
  send_response r (sock, w)
  = (Ok tt, (sent sock (PDict (LMResponse.to_dict r)), w)).
Proof.
  intros Hsend. unfold send_response, on_fst. simpl.
  by rewrite socket_send_ok.
Qed.

(** What [handle] does once the payload has been received, as one
    equation per path of the code. *)
Lemma handle_recv_raises handler sock sock1 w e :
  socket_recv sock = (Raise e, sock1) ->
  handle handler (sock, w)
  = send_response (LMResponse.error_response (str_exn e)) (sock1, w).
Proof.
  intros Hrecv. unfold handle, try_except, mbind, M_bind, on_fst at 1. simpl.
  by rewrite Hrecv.
Qed.

Lemma handle_rejects handler sock sock1 w v msg :
  socket_recv sock = (Ok v, sock1) ->
  protocol_error (Ok v) msg ->
  handle handler (sock, w)
  = try_except (send_response (LMResponse.error_response msg))
      (λ e, send_response (LMResponse.error_response (str_exn e))) (sock1, w).
Proof.
  intros Hrecv Herr.
  unfold handle, try_except, mbind, M_bind, on_fst at 1. simpl.
  rewrite Hrecv.
  inversion Herr as [| v' Hv | d Hd | d p Hd Hp]; subst.
  - by rewrite Hv.
  - simpl. unfold dict_get. by rewrite Hd.
  - simpl. unfold dict_get. rewrite Hd. simpl. by rewrite Hp.
Qed.

(** A payload that is a protocol error never changes the world, and so
    reaches no client; when the connection takes the reply, the handler
    returns after sending exactly the error response. *)
Lemma handle_protocol_error handler sock sock1 w r msg :
  socket_recv sock = (r, sock1) ->
  protocol_error r msg ->
  (handle handler (sock, w)).2.2 = w
  ∧ (can_send sock1 (error_payload msg) ->
     handle handler (sock, w) = (Ok tt, (sent sock1 (error_payload msg), w))).
Proof.
  intros Hrecv Herr. destruct r as [v|e].
  - rewrite (handle_rejects _ _ _ _ _ _ Hrecv Herr). split.
    + unfold try_except.
      pose proof (send_response_world (LMResponse.error_response msg) sock1 w) as Hw.
      destruct (send_response (LMResponse.error_response msg) (sock1, w))
        as [[[]|e] [sock2 w2]]; simpl in Hw; subst; [done|].
      apply send_response_world.
    + intros Hsend. unfold try_except.
      by rewrite send_response_ok.
  - inversion Herr; subst.
    rewrite (handle_recv_raises _ _ _ _ _ Hrecv). split.
    + apply send_response_world.
    + intros Hsend. by rewrite send_response_ok.
Qed.
End RouterFacts.

(** C1. For every inbound payload that is not a JSON object, or whose
    ["prompt"] is missing or empty (and likewise for bytes that do not
    decode), the connection handler invokes no client -- the record of
    completion calls and the state of the providers are as before -- and,
    the connection taking the reply, it returns after sending exactly one
    frame, the error response. *)
Theorem C1_protocol_errors_reach_no_client {Ext : Type} `{JsonCodec}
    (handler : LMHandler Ext) (sock sock1 : socket) (w : World Ext)
    (r : outcome pyval) (msg : string) :
  socket_recv sock = (r, sock1) ->
  protocol_error r msg ->
  lm_calls (handle handler (sock, w)).2.2 = lm_calls w
  ∧ ext (handle handler (sock, w)).2.2 = ext w
  ∧ (can_send sock1 (error_payload msg) ->
     handle handler (sock, w) = (Ok tt, (sent sock1 (error_payload msg), w))).
Proof.
  intros Hrecv Herr.
  destruct (handle_protocol_error handler sock sock1 w r msg Hrecv Herr) as [Hw Hsent].
  rewrite Hw. auto.
Qed.

Lemma C1_protocol_errors_reach_no_client_witness :
  let closed := {| incoming := []; outgoing := []; send_fault := None |} in
  socket_recv (delivering (PList [])) = (Ok (PList []), closed)
  ∧ lm_calls (handle scripted_handler (delivering (PList []), fresh_world)).2.2 = []
  ∧ handle scripted_handler (delivering (PList []), fresh_world)
    = (Ok tt,
       (sent closed (error_payload "Request must be a JSON object"), fresh_world)).
Proof.
  assert (Hrecv : socket_recv (delivering (PList []))
                  = (Ok (PList []),
                     {| incoming := []; outgoing := []; send_fault := None |}))
    by (vm_compute; reflexivity).
  destruct (C1_protocol_errors_reach_no_client scripted_handler
              (delivering (PList [])) _ fresh_world (Ok (PList []))
              "Request must be a JSON object" Hrecv
              (not_an_object (PList []) eq_refl)) as (Hcalls & _ & Hsent).
  split; [exact Hrecv|]. split; [exact Hcalls|].
  apply Hsent. split; [reflexivity | vm_compute; reflexivity].
Defined.

(** C10. Decoding a request is total over dicts: a missing ["prompt"] becomes
    the empty string, a missing ["model"] becomes [None], and keys that are
    present are taken as they are.  Decoding accepts an empty prompt; it is
    the handler's check, after decoding, that rejects it. *)
Theorem C10_from_dict_total (data : pydict) :
  (dict_lookup "prompt" data = None ->
   LMRequest.prompt (LMRequest.from_dict data) = PStr "")
  ∧ (dict_lookup "model" data = None ->
     LMRequest.model (LMRequest.from_dict data) = PNone)
  ∧ (∀ v, dict_lookup "prompt" data = Some v ->
          LMRequest.prompt (LMRequest.from_dict data) = v)
  ∧ (∀ v, dict_lookup "model" data = Some v ->
          LMRequest.model (LMRequest.from_dict data) = v)
  ∧ (truthy (LMRequest.prompt (LMRequest.from_dict data)) = false ->
     ∀ (Ext : Type) (codec : JsonCodec) (handler : LMHandler Ext)
       (sock sock1 : socket) (w : World Ext),
       socket_recv sock = (Ok (PDict data), sock1) ->
       (handle handler (sock, w)).2.2 = w
       ∧ (can_send sock1 (error_payload "Missing or invalid 'prompt' in request.") ->
          handle handler (sock, w)
          = (Ok tt,
             (sent sock1 (error_payload "Missing or invalid 'prompt' in request."),
              w)))).
Proof.
  unfold LMRequest.from_dict, dict_get. simpl.
  repeat split.
  - by intros ->.
  - by intros ->.
  - by intros v ->.
  - by intros v ->.
  - eapply handle_protocol_error; [eassumption|].
    destruct (dict_lookup "prompt" data) as [v|] eqn:Hp.
    + by eapply prompt_empty.
    + by apply prompt_missing.
  - intros Hsend.
    eapply handle_protocol_error; [eassumption| |exact Hsend].
    destruct (dict_lookup "prompt" data) as [v|] eqn:Hp.
    + by eapply prompt_empty.
    + by apply prompt_missing.
Qed.

(** ** Typed request helpers *)

Section RequestFacts.
Context `{JsonCodec} `{Network}.

(** A fault while waiting for the response (a time-out, a reset) is what
    the exchange raises. *)
Lemma socket_request_recv_fault address data timeout sock e rest :
  connect address (default default_timeout timeout) = Ok sock ->
  can_send sock data ->
  incoming sock = Fault e :: rest ->
  socket_request address data timeout = Raise e.
Proof.
  intros Hconn Hsend Hin. unfold socket_request. rewrite Hconn.
  unfold mbind, M_bind. rewrite socket_send_ok by done.
  unfold socket_recv, mbind, M_bind, recv, sent. simpl. rewrite Hin. reflexivity.
Qed.
End RequestFacts.

(** Failures of the exchange reach the caller of the typed helper as error
    responses: a connection that is refused or times out, and a wait for the
    response that ends in a fault. *)
Lemma send_lm_request_reports_faults `{JsonCodec} `{Network}
    (address : string * Z) (request : LMRequest.t) (timeout : option Z) :
  let data := PDict (LMRequest.to_dict request) in
  (∀ e, connect address (default 300 timeout) = Raise e ->
        send_lm_request address request timeout
        = LMResponse.error_response ("Request failed: " ++ str_exn e))
  ∧ (∀ sock e rest,
       connect address (default 300 timeout) = Ok sock ->
       can_send sock data ->
       incoming sock = Fault e :: rest ->
       send_lm_request address request timeout
       = LMResponse.error_response ("Request failed: " ++ str_exn e)).
Proof.
  intros data. split.
  - intros e Hconn. unfold send_lm_request, socket_request, default_timeout.
    by rewrite Hconn.
  - intros sock e rest Hconn Hsend Hin. subst data. unfold send_lm_request.
    by rewrite (socket_request_recv_fault _ _ _ _ _ _ Hconn Hsend Hin).
Qed.

(** On a network that stays silent, the caller of the helper is handed the
    time-out as an error response. *)
Example send_lm_request_times_out :
  @send_lm_request scripted_codec silent_network ("127.0.0.1", 50007)
    {| LMRequest.prompt := PStr "2+2?"; LMRequest.model := PNone |} None
  = LMResponse.error_response "Request failed: timed out".
Proof. vm_compute. reflexivity. Qed.

(** ** The time-out of the exchange *)

Section TimedFacts.
Context `{JsonCodec} `{Timed.Network}.
Variable t : Z.
Hypothesis t_nonneg : 0 <= t.

Lemma keeps_mret {A} (a : A) : keeps_within t (mret a).
Proof.
  intros s Hs. split; [exact Hs|]. exists []. simpl. rewrite app_nil_r.
  split_and!; [done | constructor | intros x []].
Qed.

Lemma keeps_lift {A} (r : outcome A) : keeps_within t (lift r).
Proof.
  intros s Hs. split; [exact Hs|]. exists []. simpl. rewrite app_nil_r.
  split_and!; [done | constructor | intros x []].
Qed.

Lemma keeps_raise {A} (e : exn) : keeps_within t (@raise _ A e).
Proof.
  intros s Hs. split; [exact Hs|]. exists []. simpl. rewrite app_nil_r.
  split_and!; [done | constructor | intros x []].
Qed.

Lemma keeps_bind {A B} (m : M Timed.socket A) (k : A -> M Timed.socket B) :
  keeps_within t m -> (∀ a, keeps_within t (k a)) -> keeps_within t (m ≫= k).
Proof.
  intros Hm Hk s Hs. unfold mbind, M_bind.
  destruct (Hm s Hs) as (Hs' & spent & Hcalls & Hall & Hup).
  destruct (m s) as [[a|e] s']; simpl in *.
  - destruct (Hk a s' Hs') as (Hs'' & spent' & Hcalls' & Hall' & Hup').
    split; [exact Hs''|]. exists (spent ++ spent')%list.
    split_and!.
    + by rewrite Hcalls', Hcalls, app_assoc.
    + by apply Forall_app.
    + intros x [Hin|Hin]%in_app_or; [|by apply Hup'].
      by destruct (Hup x Hin) as [_ [msg ?]].
  - split; [exact Hs'|]. exists spent. split_and!; [done..|].
    intros x Hin. destruct (Hup x Hin) as [-> [msg [= ->]]]. eauto.
Qed.

(** A call that ends in one way, after one wait. *)
Lemma keeps_one_call {A} (r : outcome A) (b : Timed.blocked) (s s0 : Timed.socket) :
  Timed.gettimeout s0 = Some t ->
  Timed.calls s0 = Timed.calls s ->
  Timed.duration b <= t ->
  (∀ x, b = Timed.GivenUp x -> x = t ∧ ∃ msg, r = Raise (Timed.expiry t msg)) ->
  Timed.gettimeout (Timed.ended b s0) = Some t
  ∧ ∃ spent,
      Timed.calls (Timed.ended b s0) = (Timed.calls s ++ spent)%list
      ∧ Forall (λ b, Timed.duration b <= t) spent
      ∧ ∀ x, In (Timed.GivenUp x) spent ->
          x = t ∧ ∃ msg, r = Raise (Timed.expiry t msg).
Proof.
  intros Hs0 Hcalls Hb Hup. split; [exact Hs0|]. exists [b]. simpl.
  split_and!; [by rewrite Hcalls | by constructor |].
  intros x [->|[]]. by apply Hup.
Qed.

Lemma gives_up_spec (due : Z) :
  (Timed.gives_up (Some t) due = Some t ∧ t < due)
  ∨ (Timed.gives_up (Some t) due = None ∧ due <= t).
Proof.
  unfold Timed.gives_up. destruct (t <? due) eqn:Hlt; [left|right]; split; try done.
  - by apply Z.ltb_lt.
  - by apply Z.ltb_ge.
Qed.

Lemma keeps_connect (address : string * Z) : keeps_within t (Timed.connect address).
Proof.
  intros s Hs. unfold Timed.connect. rewrite Hs.
  destruct (gives_up_spec (Timed.delay (Timed.accepting (Timed.reach address))))
    as [[-> Hlt]|[-> Hle]]; simpl fst; simpl snd.
  - apply keeps_one_call; [done | done | simpl; lia |].
    intros x [= <-]. eauto.
  - destruct (Timed.brings _); simpl fst; simpl snd;
      (apply keeps_one_call; [done | done | simpl; lia | done]).
Qed.

Lemma keeps_sendall (bs : list byte) : keeps_within t (Timed.sendall bs).
Proof.
  intros s Hs. unfold Timed.sendall. rewrite Hs.
  destruct (gives_up_spec (Timed.delay (Timed.taking (Timed.far s))))
    as [[-> Hlt]|[-> Hle]]; simpl fst; simpl snd.
  - apply keeps_one_call; [done | done | simpl; lia |].
    intros x [= <-]. eauto.
  - destruct (Timed.brings _); simpl fst; simpl snd;
      (apply keeps_one_call; [done | done | simpl; lia | done]).
Qed.

Lemma recv_events_within (n : nat) : ∀ evs waited,
  waited <= t ->
  Timed.duration (Timed.recv_events (Some t) n waited evs).1.2 <= t
  ∧ ∀ x, (Timed.recv_events (Some t) n waited evs).1.2 = Timed.GivenUp x ->
      x = t
      ∧ ∃ msg, (Timed.recv_events (Some t) n waited evs).1.1
               = Raise (Timed.expiry t msg).
Proof.
  induction evs as [|[d ev] evs IH]; intros waited Hw; cbn [Timed.recv_events].
  - simpl. split; [done | discriminate].
  - destruct (gives_up_spec (waited + d)) as [[-> Hlt]|[-> Hle]];
      cbn [fst snd Timed.duration].
    + split; [lia|]. intros x [= <-]. eauto.
    + destruct ev as [[|b bs]|e]; cbn [fst snd Timed.duration].
      * by apply IH.
      * split; [done | discriminate].
      * split; [done | discriminate].
Qed.

Lemma keeps_recv (n : nat) : keeps_within t (Timed.recv n).
Proof.
  intros s Hs. unfold Timed.recv. rewrite Hs.
  pose proof (recv_events_within n (Timed.replying (Timed.far s)) 0 t_nonneg)
    as [Hd Hup].
  destruct (Timed.recv_events (Some t) n 0 (Timed.replying (Timed.far s)))
    as [[r b] evs]. cbn [fst snd] in *.
  by apply keeps_one_call.
Qed.

Lemma keeps_socket_send (data : pyval) : keeps_within t (Timed.socket_send data).
Proof.
  unfold Timed.socket_send. apply keeps_bind; [apply keeps_lift|].
  intros header. apply keeps_sendall.
Qed.

Lemma keeps_recv_payload (fuel length : nat) : ∀ payload,
  keeps_within t (Timed.recv_payload fuel length payload).
Proof.
  induction fuel as [|fuel IH]; intros payload; simpl;
    destruct (_ <? _)%nat; try apply keeps_mret.
  apply keeps_bind; [apply keeps_recv|].
  intros [|b chunk]; [apply keeps_raise | apply IH].
Qed.

Lemma keeps_socket_recv : keeps_within t Timed.socket_recv.
Proof.
  unfold Timed.socket_recv. apply keeps_bind; [apply keeps_recv|].
  intros [|b raw]; [apply keeps_mret|].
  apply keeps_bind; [apply keeps_lift|]. intros length.
  apply keeps_bind; [apply keeps_recv_payload|]. intros payload.
  apply keeps_lift.
Qed.

Lemma keeps_exchange (address : string * Z) (data : pyval) :
  keeps_within t
    (Timed.connect address;; Timed.socket_send data;; Timed.socket_recv).
Proof.
  apply keeps_bind; [apply keeps_connect|]. intros _.
  apply keeps_bind; [apply keeps_socket_send|]. intros _.
  apply keeps_socket_recv.
Qed.
End TimedFacts.

(** A request, step by step: the time-out is set first, and refused when
    negative; the exchange then runs on a socket that has it. *)
Lemma socket_request_steps `{JsonCodec} `{Timed.Network}
    (address : string * Z) (data : pyval) (timeout : option Z)
    (past : list Timed.blocked) :
  let t := default 300 timeout in
  let run :=
    (Timed.connect address;; Timed.socket_send data;; Timed.socket_recv)
      {| Timed.gettimeout := Some t; Timed.far := Timed.nobody;
         Timed.outgoing := []; Timed.calls := [] |} in
  Timed.socket_request address data timeout past
  = if t <? 0 then (Raise (Exn "ValueError" "Timeout value out of range"), past)
    else (run.1, (past ++ Timed.calls run.2)%list).
Proof.
  intros t run. unfold Timed.socket_request, default_timeout. fold t.
  unfold mbind at 1, M_bind at 1, Timed.settimeout.
  destruct (t <? 0).
  - simpl. by rewrite app_nil_r.
  - cbn [Timed.socket_socket Timed.far Timed.outgoing Timed.calls]. fold run.
    by destruct run.
Qed.

(** What a request leaves in the caller's record: calls that each ended
    within the time-out; and a call given up makes the request raise. *)
Lemma socket_request_spent `{JsonCodec} `{Timed.Network}
    (address : string * Z) (data : pyval) (timeout : option Z)
    (past : list Timed.blocked) :
  let t := default 300 timeout in
  ∃ spent,
    (Timed.socket_request address data timeout past).2 = (past ++ spent)%list
    ∧ Forall (λ b, Timed.duration b <= t) spent
    ∧ ∀ x, In (Timed.GivenUp x) spent ->
        x = t
        ∧ ∃ msg, (Timed.socket_request address data timeout past).1
                 = Raise (Timed.expiry t msg).
Proof.
  intros t. rewrite socket_request_steps. fold t.
  destruct (t <? 0) eqn:Hneg.
  - exists []. rewrite app_nil_r. split_and!; [done | constructor | intros x []].
  - apply Z.ltb_ge in Hneg.
    destruct (keeps_exchange t Hneg address data
                {| Timed.gettimeout := Some t; Timed.far := Timed.nobody;
                   Timed.outgoing := []; Timed.calls := [] |} eq_refl)
      as (_ & spent & Hcalls & Hall & Hup).
    exists spent. cbn [fst snd]. rewrite Hcalls. by split_and!.
Qed.

Lemma expiry_timed_out (t : Z) (msg : string) :
  0 < t -> Timed.expiry t msg = Exn "TimeoutError" "timed out".
Proof.
  intros Ht. unfold Timed.expiry. destruct (t =? 0) eqn:H0; [|done].
  apply Z.eqb_eq in H0. lia.
Qed.

(** A peer that does not accept within the time-out: the connect is given
    up, and it is the only blocking call of the request. *)
Lemma socket_request_connect_given_up `{JsonCodec} `{Timed.Network}
    (address : string * Z) (data : pyval) (timeout : option Z)
    (past : list Timed.blocked) :
  let t := default 300 timeout in
  0 <= t ->
  t < Timed.delay (Timed.accepting (Timed.reach address)) ->
  (Timed.socket_request address data timeout past).2
  = (past ++ [Timed.GivenUp t])%list.
Proof.
  intros t Ht Hslow. rewrite socket_request_steps. fold t.
  replace (t <? 0) with false by (symmetry; apply Z.ltb_ge; lia).
  unfold mbind, M_bind, Timed.connect, Timed.gives_up. cbn [Timed.gettimeout].
  replace (t <? _) with true by (symmetry; apply Z.ltb_lt; lia).
  reflexivity.
Qed.

(** A peer that accepts and takes the request in time, and whose reply does
    not begin within the time-out: the first receive is given up. *)
Lemma socket_request_recv_given_up `{JsonCodec} `{Timed.Network}
    (address : string * Z) (data : pyval) (timeout : option Z)
    (past : list Timed.blocked) (dc ds d : Z) (ev : recv_event)
    (rest : list (Timed.after recv_event)) :
  let t := default 300 timeout in
  0 <= t ->
  Z.of_nat (length (json_dumps data)) < 2 ^ 32 ->
  Timed.accepting (Timed.reach address) = Timed.After dc None -> dc <= t ->
  Timed.taking (Timed.reach address) = Timed.After ds None -> ds <= t ->
  Timed.replying (Timed.reach address) = Timed.After d ev :: rest -> t < d ->
  (Timed.socket_request address data timeout past).2
  = (past ++ [Timed.Returned dc; Timed.Returned ds; Timed.GivenUp t])%list.
Proof.
  intros t Ht Hfit Hacc Hdc Htake Hds Hreply Hd.
  rewrite socket_request_steps. fold t.
  replace (t <? 0) with false by (symmetry; apply Z.ltb_ge; lia).
  unfold mbind, M_bind, Timed.connect, Timed.gives_up. cbn [Timed.gettimeout].
  rewrite Hacc. cbn [Timed.delay Timed.brings].
  replace (t <? dc) with false by (symmetry; apply Z.ltb_ge; lia).
  unfold Timed.socket_send, mbind, M_bind, lift, pack_u32.
  replace ((0 <=? Z.of_nat (length (json_dumps data)))
           && (Z.of_nat (length (json_dumps data)) <? 2 ^ 32)) with true
    by (symmetry; apply andb_true_iff; split;
        [apply Z.leb_le | apply Z.ltb_lt]; lia).
  unfold Timed.sendall, Timed.gives_up, Timed.ended.
  cbn [Timed.gettimeout Timed.far Timed.outgoing Timed.calls].
  rewrite Htake. cbn [Timed.delay Timed.brings].
  replace (t <? ds) with false by (symmetry; apply Z.ltb_ge; lia).
  unfold Timed.socket_recv, mbind, M_bind, Timed.recv.
  cbn [Timed.gettimeout Timed.far Timed.outgoing Timed.calls Timed.replying].
  rewrite Hreply. cbn [Timed.recv_events]. unfold Timed.gives_up.
  replace (t <? 0 + d) with true by (symmetry; apply Z.ltb_lt; lia).
  reflexivity.
Qed.

(** C7, as the code has it.  The typed request helper sets the caller's
    time-out on the socket, 300 when none is given, and the time-out bounds
    each blocking call of the exchange -- the connect, the send, every
    single receive -- not the exchange as a whole.  The helper never raises:
    it returns a response whatever the exchange does.  When the exchange
    raises, the response is the synthesized error response carrying the
    exception's message; a call that the socket gives up is given up after
    the time-out, and the response then says [timed out].  That is what
    happens when the peer does not accept within the time-out, and when it
    accepts and takes the request but does not begin to reply within it. *)
Theorem C7_timeout_bounds_each_blocking_call `{JsonCodec} `{Timed.Network}
    (address : string * Z) (request : LMRequest.t) (timeout : option Z)
    (past : list Timed.blocked) :
  let t := default 300 timeout in
  let data := PDict (LMRequest.to_dict request) in
  let peer := Timed.reach address in
  ∃ response spent,
    Timed.send_lm_request address request timeout past
    = (Ok response, (past ++ spent)%list)
    ∧ Forall (λ b, Timed.duration b <= t) spent
    ∧ (∀ e, (Timed.socket_request address data timeout past).1 = Raise e ->
         response = LMResponse.error_response ("Request failed: " ++ str_exn e))
    ∧ (0 < t -> ∀ x, In (Timed.GivenUp x) spent ->
         x = t
         ∧ response = LMResponse.error_response "Request failed: timed out")
    ∧ (0 < t -> t < Timed.delay (Timed.accepting peer) ->
         spent = [Timed.GivenUp t])
    ∧ (0 < t -> Z.of_nat (length (json_dumps data)) < 2 ^ 32 ->
       ∀ dc ds d ev rest,
         Timed.accepting peer = Timed.After dc None -> dc <= t ->
         Timed.taking peer = Timed.After ds None -> ds <= t ->
         Timed.replying peer = Timed.After d ev :: rest -> t < d ->
         spent = [Timed.Returned dc; Timed.Returned ds; Timed.GivenUp t]).
Proof.
  intros t data peer.
  destruct (socket_request_spent address data timeout past)
    as (spent & Hcalls & Hall & Hup). fold t in Hall, Hup.
  assert (Hconnect : 0 < t -> t < Timed.delay (Timed.accepting peer) ->
                     spent = [Timed.GivenUp t]).
  { intros Ht Hslow.
    pose proof (socket_request_connect_given_up address data timeout past
                  ltac:(fold t; lia) Hslow) as Hspent.
    rewrite Hcalls in Hspent. by apply app_inv_head in Hspent. }
  assert (Hrecv : 0 < t -> Z.of_nat (length (json_dumps data)) < 2 ^ 32 ->
                  ∀ dc ds d ev rest,
                    Timed.accepting peer = Timed.After dc None -> dc <= t ->
                    Timed.taking peer = Timed.After ds None -> ds <= t ->
                    Timed.replying peer = Timed.After d ev :: rest -> t < d ->
                    spent = [Timed.Returned dc; Timed.Returned ds; Timed.GivenUp t]).
  { intros Ht Hfit dc ds d ev rest Hacc Hdc Htake Hds Hreply Hd.
    pose proof (socket_request_recv_given_up address data timeout past dc ds d ev
                  rest ltac:(fold t; lia) Hfit Hacc Hdc Htake Hds Hreply Hd)
      as Hspent.
    rewrite Hcalls in Hspent. by apply app_inv_head in Hspent. }
  unfold Timed.send_lm_request, try_except, mbind, M_bind, lift. fold data.
  destruct (Timed.socket_request address data timeout past) as [[v|e] past'];
    cbn [fst snd] in *; subst past'.
  - destruct (response_from_value v) as [response|e].
    + exists response, spent. split_and!; try done.
      intros _ x Hin. by destruct (Hup x Hin) as [_ [msg ?]].
    + eexists _, spent. split_and!; try done.
      intros _ x Hin. by destruct (Hup x Hin) as [_ [msg ?]].
  - eexists _, spent. split_and!; try done.
    + by intros e' [= <-].
    + intros Ht x Hin. destruct (Hup x Hin) as [-> [msg [= ->]]].
      by rewrite expiry_timed_out.
Qed.

(** On the router that never replies: the request ends, after the connect,
    the send and a receive that is given up when the time-out has passed,
    with the error response of the time-out. *)
Lemma C7_timeout_bounds_each_blocking_call_witness :
  ∃ response spent,
    @Timed.send_lm_request scripted_codec mute_network ("127.0.0.1", 50007)
      {| LMRequest.prompt := PStr "2+2?"; LMRequest.model := PNone |} None []
    = (Ok response, spent)
    ∧ Forall (λ b, Timed.duration b <= 300) spent
    ∧ spent = [Timed.Returned 1; Timed.Returned 0; Timed.GivenUp 300]
    ∧ response = LMResponse.error_response "Request failed: timed out".
Proof.
  destruct (@C7_timeout_bounds_each_blocking_call scripted_codec mute_network
              ("127.0.0.1", 50007)
              {| LMRequest.prompt := PStr "2+2?"; LMRequest.model := PNone |}
              None [])
    as (response & spent & Hrun & Hall & _ & Hup & _ & Hrecv).
  assert (Hfit : Z.of_nat (length (json_dumps (PDict [("prompt", PStr "2+2?")])))
                 < 2 ^ 32) by (vm_compute; reflexivity).
  pose proof (Hrecv ltac:(simpl; lia) Hfit 1 0 1000 (Segment []) [] eq_refl
                ltac:(simpl; lia) eq_refl ltac:(simpl; lia) eq_refl
                ltac:(simpl; lia)) as Hspent.
  exists response, spent. split_and!; [exact Hrun | exact Hall | exact Hspent |].
  apply (Hup ltac:(simpl; lia) 300). rewrite Hspent. simpl. auto.
Defined.

(** C7, the counterexample.  With the default time-out of 300, a router
    that accepts after 100 time-units, and sends the prefix of its reply
    250 after the request and the payload 250 later, has every blocking
    call return within the time-out: the helper returns the success
    response, 600 time-units after it was called.  The time-out did not
    bound the exchange. *)
Lemma C7_exchange_outlasts_timeout :
  @Timed.send_lm_request scripted_codec slow_network ("127.0.0.1", 50007)
    {| LMRequest.prompt := PStr "2+2?"; LMRequest.model := PNone |} None []
  = (Ok (LMResponse.success_response "4"),
     [Timed.Returned 100; Timed.Returned 0; Timed.Returned 250;
      Timed.Returned 250])
  ∧ @calls_within_timeout scripted_codec slow_network ("127.0.0.1", 50007)
      {| LMRequest.prompt := PStr "2+2?"; LMRequest.model := PNone |} None
  ∧ ¬ @exchange_within_timeout scripted_codec slow_network ("127.0.0.1", 50007)
        {| LMRequest.prompt := PStr "2+2?"; LMRequest.model := PNone |} None.
Proof.
  assert (Hrun :
    @Timed.send_lm_request scripted_codec slow_network ("127.0.0.1", 50007)
      {| LMRequest.prompt := PStr "2+2?"; LMRequest.model := PNone |} None []
    = (Ok (LMResponse.success_response "4"),
       [Timed.Returned 100; Timed.Returned 0; Timed.Returned 250;
        Timed.Returned 250])) by (vm_compute; reflexivity).
  split; [exact Hrun|].
  unfold calls_within_timeout, exchange_within_timeout. rewrite Hrun.
  split.
  - repeat constructor; simpl; lia.
  - vm_compute. intros Hle. by apply Hle.
Qed.

(** ** The two embeddings of the exchange agree *)

Section Agreement.
Context `{JsonCodec}.
Variable t : Z.
Hypothesis t_nonneg : 0 <= t.

Lemma agrees_mret {A} (a : A) : agrees t (mret a) (mret a).
Proof. intros s Hs. simpl. split_and!; [done | done | by intros ? [= <-]]. Qed.

Lemma agrees_lift {A} (r : outcome A) : agrees t (lift r) (lift r).
Proof. intros s Hs. simpl. split_and!; [done | done | by intros]. Qed.

Lemma agrees_raise {A} (e : exn) : agrees t (@raise _ A e) (raise e).
Proof. intros s Hs. simpl. split_and!; [done | done | by intros]. Qed.

Lemma agrees_bind {A B} (m : M Timed.socket A) (m' : M socket A)
    (k : A -> M Timed.socket B) (k' : A -> M socket B) :
  agrees t m m' -> (∀ a, agrees t (k a) (k' a)) -> agrees t (m ≫= k) (m' ≫= k').
Proof.
  intros Hm Hk s Hs. unfold mbind, M_bind.
  destruct (Hm s Hs) as (Hr & Hs' & Hok).
  destruct (m s) as [[a|e] s1]; destruct (m' (untimed_socket t s)) as [r' u1];
    simpl in *; subst r'.
  - rewrite (Hok a eq_refl). by apply Hk.
  - split_and!; [done | done | discriminate].
Qed.

Lemma recv_events_agree (n : nat) : ∀ evs waited,
  (recv_events n (untimed_events t waited evs)).1
  = (Timed.recv_events (Some t) n waited evs).1.1
  ∧ ∀ a, (Timed.recv_events (Some t) n waited evs).1.1 = Ok a ->
      (recv_events n (untimed_events t waited evs)).2
      = untimed_events t 0 (Timed.recv_events (Some t) n waited evs).2.
Proof.
  induction evs as [|[d ev] evs IH]; intros waited;
    cbn [Timed.recv_events untimed_events Timed.gives_up].
  - simpl. done.
  - destruct (t <? waited + d) eqn:Hlate; cbn [fst snd].
    + simpl. split; [done | discriminate].
    + destruct ev as [[|b bs]|e]; cbn [fst snd].
      * apply IH.
      * cbn [recv_events]. cbn [fst snd]. split; [done|]. intros _ _.
        destruct (drop n (b :: bs)) as [|c tl]; [done|].
        cbn [untimed_events].
        replace (t <? 0 + 0) with false by (symmetry; apply Z.ltb_ge; lia).
        reflexivity.
      * simpl. split; [done | discriminate].
Qed.

Lemma agrees_recv (n : nat) : agrees t (Timed.recv n) (recv n).
Proof.
  intros s Hs. unfold Timed.recv, recv, untimed_socket. rewrite Hs.
  cbn [incoming outgoing send_fault].
  destruct (recv_events_agree n (Timed.replying (Timed.far s)) 0) as [Hr Hrest].
  destruct (Timed.recv_events (Some t) n 0 (Timed.replying (Timed.far s)))
    as [[r b] evs].
  destruct (recv_events n (untimed_events t 0 (Timed.replying (Timed.far s))))
    as [r' evs'].
  cbn [fst snd] in *. subst r'. split_and!; [done | done |].
  intros a Ha. by rewrite (Hrest a Ha).
Qed.

Lemma agrees_sendall (bs : list byte) : agrees t (Timed.sendall bs) (sendall bs).
Proof.
  intros s Hs. unfold Timed.sendall, sendall, untimed_socket, Timed.gives_up,
    untimed_send_fault. rewrite Hs. cbn [incoming outgoing send_fault].
  destruct (t <? Timed.delay (Timed.taking (Timed.far s))) eqn:Hlate;
    cbn [fst snd].
  - split_and!; [done | done | discriminate].
  - destruct (Timed.brings (Timed.taking (Timed.far s))) as [e|] eqn:Hbrings;
      cbn [fst snd Timed.ended Timed.gettimeout Timed.far Timed.outgoing].
    + split_and!; [done | done | discriminate].
    + split_and!; [done | done |]. intros _ _. by rewrite Hlate, Hbrings.
Qed.

Lemma agrees_socket_send (data : pyval) :
  agrees t (Timed.socket_send data) (socket_send data).
Proof.
  unfold Timed.socket_send, socket_send.
  apply agrees_bind; [apply agrees_lift|]. intros header. apply agrees_sendall.
Qed.

Lemma agrees_recv_payload (fuel length : nat) : ∀ payload,
  agrees t (Timed.recv_payload fuel length payload)
    (recv_payload fuel length payload).
Proof.
  induction fuel as [|fuel IH]; intros payload; simpl;
    destruct (_ <? _)%nat; try apply agrees_mret.
  apply agrees_bind; [apply agrees_recv|].
  intros [|b chunk]; [apply agrees_raise | apply IH].
Qed.

Lemma agrees_socket_recv : agrees t Timed.socket_recv socket_recv.
Proof.
  unfold Timed.socket_recv, socket_recv.
  apply agrees_bind; [apply agrees_recv|].
  intros [|b raw]; [apply agrees_mret|].
  apply agrees_bind; [apply agrees_lift|]. intros length.
  apply agrees_bind; [apply agrees_recv_payload|]. intros payload.
  apply agrees_lift.
Qed.
End Agreement.

(** A request ends in the embedding with times as it does in the one
    without, on the network seen under the request's time-out. *)
Lemma socket_request_agrees `{JsonCodec} `{Timed.Network}
    (address : string * Z) (data : pyval) (timeout : option Z)
    (past : list Timed.blocked) :
  (Timed.socket_request address data timeout past).1
  = @socket_request _ untimed_network address data timeout.
Proof.
  rewrite socket_request_steps. unfold socket_request, default_timeout.
  cbn [connect untimed_network].
  set (t := default 300 timeout).
  destruct (t <? 0) eqn:Hneg; [done|]. apply Z.ltb_ge in Hneg.
  cbn [fst]. unfold mbind at 1, M_bind at 1, Timed.connect, Timed.gives_up.
  cbn [Timed.gettimeout].
  destruct (t <? Timed.delay (Timed.accepting (Timed.reach address))); [done|].
  destruct (Timed.brings (Timed.accepting (Timed.reach address))); [done|].
  match goal with
  | |- (?k ?s0).1 = _ =>
      pose proof (agrees_bind t (Timed.socket_send data) (socket_send data)
                    (λ _, Timed.socket_recv) (λ _, socket_recv)
                    (agrees_socket_send t data)
                    (λ _, agrees_socket_recv t Hneg) s0 eq_refl) as [Hr _]
  end.
  symmetry. exact Hr.
Qed.

(** The helper answers in the embedding with times what it answers in the
    one without. *)
Lemma send_lm_request_agrees `{JsonCodec} `{Timed.Network}
    (address : string * Z) (request : LMRequest.t) (timeout : option Z)
    (past : list Timed.blocked) :
  (Timed.send_lm_request address request timeout past).1
  = Ok (@send_lm_request _ untimed_network address request timeout).
Proof.
  unfold Timed.send_lm_request, send_lm_request, try_except, mbind, M_bind, lift.
  rewrite <- socket_request_agrees with (past := past).
  destruct (Timed.socket_request address _ timeout past) as [[v|e] past'];
    cbn [fst]; [|done].
  by destruct (response_from_value v).
Qed.


(** ** The orchestration loop *)

Section LoopFacts.
Context {Ext : Type} `{Parsing}.
Implicit Types (self : RLM Ext) (w : World Ext).

(** Executing blocks asks nothing of the model clients, whether or not the
    environment raises. *)
Lemma run_code_blocks_calls self codes : ∀ acc w,
  lm_calls (run_code_blocks self codes acc w).2 = lm_calls w.
Proof.
  induction codes as [|c codes IH]; intros acc w; [done|].
  simpl. unfold mbind, M_bind, execute_call.
  destruct (execute_code (environment self) c (ext w)) as [[r|e] x]; [|done].
  by rewrite IH.
Qed.

(** With an environment that reports results, every block is executed, in
    order, and recorded with the result the environment gave. *)
Lemma run_code_blocks_all self codes : ∀ acc w,
  always_returns (environment self) ->
  ∃ blocks w',
    run_code_blocks self codes acc w = (Ok (acc ++ blocks)%list, w')
    ∧ code <$> blocks = codes
    ∧ executed w' = (executed w ++ (execution_of <$> blocks))%list.
Proof.
  intros acc w Henv. revert acc w.
  induction codes as [|c codes IH]; intros acc w.
  - exists [], w. simpl. by rewrite !app_nil_r.
  - simpl. unfold mbind, M_bind, execute_call.
    destruct (Henv c (ext w)) as (r & x & Hexec). rewrite Hexec.
    destruct (IH (acc ++ [{| code := c; result := r |}])%list
                {| ext := x; lm_calls := lm_calls w;
                   executed := (executed w ++ [(c, Ok r)])%list; heap := heap w |})
      as (blocks & w' & Hrun & Hcodes & Hexecd).
    exists ({| code := c; result := r |} :: blocks), w'.
    split_and!.
    + rewrite Hrun. by rewrite <- app_assoc.
    + by rewrite fmap_cons, Hcodes.
    + rewrite Hexecd, fmap_cons. simpl. by rewrite <- app_assoc.
Qed.

(** A turn asks the default client exactly once, however it ends. *)
Lemma completion_turn_one_call self prompt w :
  lm_calls (_completion_turn self prompt w).2
  = (lm_calls w ++ [(model_name (default_client (lm_handler self)), prompt)])%list.
Proof.
  unfold _completion_turn, handler_completion, mbind, M_bind, lift,
    completion_call. simpl.
  destruct (lm_completion _ prompt (ext w)) as [[reply|e] x]; [|done].
  match goal with
  | |- context [run_code_blocks self ?cs ?acc ?w0] =>
      pose proof (run_code_blocks_calls self cs acc w0) as Hcalls;
      destruct (run_code_blocks self cs acc w0) as [[blocks|e] w1]
  end; simpl in *; by rewrite Hcalls.
Qed.
End LoopFacts.

(** The turn of a client that replies and an environment that reports
    results returns an iteration carrying that reply. *)
Lemma completion_turn_returns {Ext : Type} `{Parsing}
    (self : RLM Ext) (prompt : pyval) (w : World Ext) (reply : string) (x : Ext) :
  lm_completion (default_client (lm_handler self)) prompt (ext w) = (Ok reply, x) ->
  always_returns (environment self) ->
  ∃ blocks w',
    _completion_turn self prompt w
    = (Ok {| response := reply; code_blocks := blocks |}, w').
Proof.
  intros Hlm Henv.
  unfold _completion_turn, handler_completion, mbind, M_bind, lift,
    completion_call. simpl. rewrite Hlm.
  match goal with
  | |- context [run_code_blocks self ?cs ?acc ?w0] =>
      destruct (run_code_blocks_all self cs acc w0 Henv)
        as (blocks & w' & Hrun & _)
  end.
  rewrite Hrun. simpl. eauto.
Qed.

(** The loop over the blocks is the environment run on them in order. *)
Lemma run_code_blocks_executes {Ext : Type} (self : RLM Ext) (codes : list string) :
  ∀ acc (w : World Ext),
    always_returns (environment self) ->
    ∃ blocks w',
      run_code_blocks self codes acc w = (Ok (acc ++ blocks)%list, w')
      ∧ executes_in_order (environment self) codes (ext w) blocks (ext w')
      ∧ code <$> blocks = codes
      ∧ executed w' = (executed w ++ (execution_of <$> blocks))%list.
Proof.
  intros acc w Henv. revert acc w.
  induction codes as [|c codes IH]; intros acc w.
  - exists [], w. simpl. rewrite !app_nil_r. split_and!; [done | constructor | done | done].
  - simpl. unfold mbind, M_bind, execute_call.
    destruct (Henv c (ext w)) as (r & x & Hexec). rewrite Hexec.
    destruct (IH (acc ++ [{| code := c; result := r |}])%list
                {| ext := x; lm_calls := lm_calls w;
                   executed := (executed w ++ [(c, Ok r)])%list; heap := heap w |})
      as (blocks & w' & Hrun & Hruns & Hcodes & Hexecd).
    exists ({| code := c; result := r |} :: blocks), w'.
    split_and!.
    + rewrite Hrun. by rewrite <- app_assoc.
    + econstructor; [exact Hexec | exact Hruns].
    + by rewrite fmap_cons, Hcodes.
    + rewrite Hexecd, fmap_cons. simpl. by rewrite <- app_assoc.
Qed.

(** C5. A turn issues exactly one completion request, through the router's
    in-process shortcut and so to its default client.  When that request is
    answered and the environment reports its executions as results, the turn
    returns an iteration whose blocks are the code blocks extracted from the
    response, in their order; each was executed by the configured
    environment, in that order and in the state the block before it left, and
    carries the result which that execution gave -- whatever that result's
    [stderr], so a failed block does not keep the later ones from running.
    The state the turn ends in is the one the last execution left, and the
    record of executions has grown by these blocks. *)
Theorem C5_turn_runs_every_block {Ext : Type} `{Parsing}
    (self : RLM Ext) (prompt : pyval) (w : World Ext) (reply : string) (x : Ext) :
  lm_completion (default_client (lm_handler self)) prompt (ext w) = (Ok reply, x) ->
  always_returns (environment self) ->
  ∃ blocks w',
    _completion_turn self prompt w
    = (Ok {| response := reply; code_blocks := blocks |}, w')
    ∧ lm_calls w'
      = (lm_calls w ++ [(model_name (default_client (lm_handler self)), prompt)])%list
    ∧ code <$> blocks = extract_code_blocks reply
    ∧ executed w' = (executed w ++ (execution_of <$> blocks))%list
    ∧ executes_in_order (environment self) (extract_code_blocks reply) x
        blocks (ext w').
Proof.
  intros Hlm Henv.
  pose proof (completion_turn_one_call self prompt w) as Hcalls.
  unfold _completion_turn, handler_completion, mbind, M_bind, lift,
    completion_call in *. simpl in *.
  rewrite Hlm in *.
  match goal with
  | |- context [run_code_blocks self ?cs ?acc ?w0] =>
      destruct (run_code_blocks_executes self cs acc w0 Henv)
        as (blocks & w' & Hrun & Hruns & Hcodes & Hexecd)
  end.
  rewrite Hrun in *. simpl in *. eauto 10.
Qed.

Lemma C5_turn_runs_every_block_witness :
  ∃ blocks w',
    _completion_turn (scripted_rlm 1 3) (PStr "q") fresh_world
    = (Ok {| response := "try both"; code_blocks := blocks |}, w')
    ∧ lm_calls w' = [("gpt", PStr "q")]
    ∧ code <$> blocks = ["1/0"; "print(1)"]
    ∧ executed w'
      = ([] ++ (execution_of <$> blocks))%list
    ∧ executes_in_order scripted_env ["1/0"; "print(1)"] 1%nat blocks (ext w').
Proof.
  assert (Hlm : lm_completion (default_client (lm_handler (scripted_rlm 1 3)))
                  (PStr "q") (ext fresh_world) = (Ok "try both", 1%nat))
    by reflexivity.
  assert (Henv : always_returns (environment (scripted_rlm 1 3)))
    by (intros code_str x; eexists _, _; reflexivity).
  exact (C5_turn_runs_every_block (scripted_rlm 1 3) (PStr "q") fresh_world
           "try both" 1%nat Hlm Henv).
Defined.

(** The first of the two blocks of that turn failed, and the second ran. *)
Example failed_block_does_not_stop_the_turn :
  executed (_completion_turn (scripted_rlm 1 3) (PStr "q") fresh_world).2
  = [("1/0", Ok {| stdout := ""; stderr := "ZeroDivisionError: division by zero";
                   locals := []; execution_time := None |});
     ("print(1)", Ok {| stdout := "print(1)"; stderr := ""; locals := [];
                        execution_time := None |})].
Proof. vm_compute. reflexivity. Qed.

Section BudgetFacts.
Context {Ext : Type} `{Parsing}.
Implicit Types (self : RLM Ext) (w : World Ext).

(** Each iteration that the loop goes through costs one completion. *)
Lemma iterate_exhausted_calls self n : ∀ hist w h w',
  iterate self n hist w = (Ok (Exhausted h), w') ->
  length (lm_calls w') = (length (lm_calls w) + n)%nat.
Proof.
  induction n as [|n IH]; intros hist w h w' Hrun; simpl in Hrun.
  - inversion Hrun; subst. lia.
  - unfold mbind, M_bind in Hrun.
    pose proof (completion_turn_one_call self (PList hist) w) as Hcall.
    destruct (_completion_turn self (PList hist) w) as [[it|e] w1]; [|done].
    simpl in Hcall.
    destruct (found (extract_final_answer it)); [done|].
    apply IH in Hrun. rewrite Hrun, Hcall, length_app. simpl. lia.
Qed.

(** With a client that never answers and an environment that reports
    results, the loop does run out of iterations. *)
Lemma iterate_never_answered self n : ∀ hist w,
  never_answers (default_client (lm_handler self)) ->
  always_returns (environment self) ->
  ∃ h w', iterate self n hist w = (Ok (Exhausted h), w').
Proof.
  intros hist w Hlm Henv. revert hist w.
  induction n as [|n IH]; intros hist w; simpl.
  - by eexists _, _.
  - destruct (Hlm (PList hist) (ext w)) as (reply & x & Hreply & Hnone).
    destruct (completion_turn_returns self (PList hist) w reply x Hreply Henv)
      as (blocks & w1 & Hturn).
    unfold mbind, M_bind. rewrite Hturn, Hnone. apply IH.
Qed.

Lemma completion_exhausted self prompt w h w' :
  iterate self (Z.to_nat (max_iterations self)) (_setup_prompt self prompt) w
  = (Ok (Exhausted h), w') ->
  completion self prompt w
  = (Ok "The RLM ran out of iterations and did not find a final answer.", w').
Proof.
  intros Hrun. unfold completion, mbind, M_bind. by rewrite Hrun.
Qed.

(** The loop never looks at [max_depth]. *)
Lemma run_code_blocks_depth d self codes : ∀ acc w,
  run_code_blocks (with_max_depth d self) codes acc w
  = run_code_blocks self codes acc w.
Proof.
  induction codes as [|c codes IH]; intros acc w; simpl; [done|].
  unfold mbind, M_bind.
  destruct (execute_call (environment self) c w) as [[r|e] w1]; [apply IH | done].
Qed.

Lemma completion_turn_depth d self prompt w :
  _completion_turn (with_max_depth d self) prompt w
  = _completion_turn self prompt w.
Proof.
  unfold _completion_turn, mbind, M_bind.
  change (lm_handler (with_max_depth d self)) with (lm_handler self).
  destruct (handler_completion (lm_handler self) prompt PNone w)
    as [[reply|e] w1]; [|done].
  by rewrite run_code_blocks_depth.
Qed.

Lemma iterate_depth d self n : ∀ hist w,
  iterate (with_max_depth d self) n hist w = iterate self n hist w.
Proof.
  induction n as [|n IH]; intros hist w; simpl; [done|].
  unfold mbind, M_bind. rewrite completion_turn_depth.
  destruct (_completion_turn self (PList hist) w) as [[it|e] w1]; [|done].
  destruct (found _); [done | apply IH].
Qed.
End BudgetFacts.

(** C4. When the iterations are used up and none of them brought a final
    answer, [completion] returns the designated fallback answer and does not
    raise, having asked for exactly [max_iterations] completions.  That is
    what happens with a client that never emits a final-answer marker: the
    fallback is returned after exactly [max_iterations] completion calls,
    three of them when [max_iterations] is 3. *)
Theorem C4_budget_exhaustion_returns_fallback {Ext : Type} `{Parsing}
    (self : RLM Ext) (prompt : pyval) (w : World Ext) :
  let n := Z.to_nat (max_iterations self) in
  let fallback := "The RLM ran out of iterations and did not find a final answer." in
  (∀ h w',
     iterate self n (_setup_prompt self prompt) w = (Ok (Exhausted h), w') ->
     completion self prompt w = (Ok fallback, w')
     ∧ length (lm_calls w') = (length (lm_calls w) + n)%nat)
  ∧ (never_answers (default_client (lm_handler self)) ->
     always_returns (environment self) ->
     ∃ w', completion self prompt w = (Ok fallback, w')
           ∧ length (lm_calls w') = (length (lm_calls w) + n)%nat).
Proof.
  intros n fallback. split.
  - intros h w' Hrun. split.
    + by eapply completion_exhausted.
    + by eapply iterate_exhausted_calls.
  - intros Hlm Henv.
    destruct (iterate_never_answered self n (_setup_prompt self prompt) w Hlm Henv)
      as (h & w' & Hrun).
    exists w'. split.
    + by eapply completion_exhausted.
    + by eapply iterate_exhausted_calls.
Qed.

Lemma C4_budget_exhaustion_returns_fallback_witness :
  ∃ w',
    completion (scripted_rlm 1 3) (PStr "q") fresh_world
    = (Ok "The RLM ran out of iterations and did not find a final answer.", w')
    ∧ length (lm_calls w') = 3%nat.
Proof.
  assert (Hlm : never_answers (default_client (lm_handler (scripted_rlm 1 3))))
    by (intros p x; exists "try both", (S x); split; [reflexivity | done]).
  assert (Henv : always_returns (environment (scripted_rlm 1 3)))
    by (intros code_str x; eexists _, _; reflexivity).
  exact (proj2 (C4_budget_exhaustion_returns_fallback (scripted_rlm 1 3)
                  (PStr "q") fresh_world) Hlm Henv).
Defined.

(** C8, as the code has it.  The orchestrator stores [max_depth] and never
    consults it: the loop runs, and the router of the orchestrator serves a
    connection, in the same way whatever the value of [max_depth]. *)
Theorem C8_max_depth_is_not_consulted {Ext : Type} `{Parsing} `{JsonCodec}
    (self : RLM Ext) (d : Z) (prompt : pyval) (sock : socket) (w : World Ext) :
  max_depth (with_max_depth d self) = d
  ∧ completion (with_max_depth d self) prompt w = completion self prompt w
  ∧ handle (lm_handler (with_max_depth d self)) (sock, w)
    = handle (lm_handler self) (sock, w).
Proof.
  split; [done|]. split; [|done].
  unfold completion, mbind, M_bind.
  change (max_iterations (with_max_depth d self)) with (max_iterations self).
  change (_setup_prompt (with_max_depth d self) prompt)
    with (_setup_prompt self prompt).
  by rewrite iterate_depth.
Qed.

(** C8, as stated, fails.  With [max_depth = 0] a completion request that
    comes from the environment is passed to the model client all the same:
    no check stands in front of it. *)
Lemma C8_nested_call_is_not_guarded : ¬ nested_calls_guarded (scripted_rlm 0 10).
Proof.
  intros Hguard.
  specialize (Hguard ltac:(simpl; lia)
                (delivering (PDict [("prompt", PStr "2+2?")])) fresh_world).
  vm_compute in Hguard. discriminate Hguard.
Qed.

(** ** Construction *)

Section ConstructionFacts.
Context {Ext : Type} `{Platform Ext}.

(** A construction that succeeds has written the address of its handler
    into the dict it was given -- the default object, when it was given
    none -- and has stored its bounds as they came. *)
Lemma RLM_init_writes_kwargs backend backend_kwargs env_name kwargs_ref
    depth iterations prompt others others_kwargs (w w' : World Ext) rlm :
  RLM_init backend backend_kwargs env_name kwargs_ref depth iterations prompt
    others others_kwargs w = (Ok rlm, w') ->
  let l := default default_environment_kwargs kwargs_ref in
  heap_read l w'
  = dict_set "LM_HANDLER_PORT" (PInt (port (lm_handler rlm)))
      (dict_set "LM_HANDLER_HOST" (PStr (host (lm_handler rlm))) (heap_read l w))
  ∧ max_depth rlm = depth
  ∧ max_iterations rlm = iterations.
Proof.
  intros Hinit l. unfold RLM_init in Hinit.
  unfold mbind, M_bind, mret, M_ret, lift, raise, heap_setitem in Hinit.
  fold l in Hinit.
  repeat (case_match; simplify_eq/=); try done.
  all: unfold heap_read; simpl; by rewrite !lookup_insert_eq.
Qed.
End ConstructionFacts.

(** C9, at the input where the code departs from it.  One construction with
    the default [environment_kwargs] succeeds, and the default mapping, empty
    before, holds the host and the port of that instance's handler
    afterwards: this is the mapping that the next construction with defaults
    starts from. *)
Theorem C9_default_kwargs_are_shared :
  let construct := RLM_init "openai" [] "local" None 1 10 None None None in
  (∃ rlm, (construct fresh_world).1 = Ok rlm)
  ∧ heap_read default_environment_kwargs fresh_world = []
  ∧ heap_read default_environment_kwargs (construct fresh_world).2
    = [("LM_HANDLER_HOST", PStr "127.0.0.1"); ("LM_HANDLER_PORT", PInt 50007)].
Proof.
  split; [|split].
  - eexists. vm_compute. reflexivity.
  - reflexivity.
  - vm_compute. reflexivity.
Qed.

(** * Further properties of the code *)

(** ** Responses on the wire *)

(** X1. The two ways of building a response survive the wire format:
    decoding the serialized form of [success_response s] or of
    [error_response s] gives the response back, the empty string included. *)
Theorem X1_built_responses_roundtrip (s : string) :
  LMResponse.from_dict (LMResponse.to_dict (LMResponse.success_response s))
  = LMResponse.success_response s
  ∧ LMResponse.from_dict (LMResponse.to_dict (LMResponse.error_response s))
    = LMResponse.error_response s.
Proof.
  split; [|reflexivity].
  unfold LMResponse.success_response, LMResponse.to_dict, LMResponse.from_dict,
    dict_get. simpl.
  destruct (String.eqb s "") eqn:Hs; simpl; [|reflexivity].
  apply String.eqb_eq in Hs. by subst.
Qed.

(** X2. For any response, also one that has both fields set or neither, the
    verdict and the error survive serialization and decoding; the content
    does not when there is an error, and an absent or empty content comes
    back as the empty string. *)
Theorem X2_wire_keeps_verdict_and_error (r : LMResponse.t) :
  let r' := LMResponse.from_dict (LMResponse.to_dict r) in
  LMResponse.success r' = LMResponse.success r
  ∧ LMResponse.error r' = LMResponse.error r
  ∧ LMResponse.content r'
    = (if LMResponse.success r
       then (if truthy (LMResponse.content r) then LMResponse.content r else PStr "")
       else PNone).
Proof.
  destruct r as [c e]. unfold LMResponse.to_dict, LMResponse.from_dict,
    LMResponse.success, dict_get. simpl.
  destruct e; simpl; auto.
Qed.

(** ** Receiving exactly one frame *)

Lemma recv_skips_empty_segment n rest o f :
  recv n {| incoming := Segment [] :: rest; outgoing := o; send_fault := f |}
  = recv n {| incoming := rest; outgoing := o; send_fault := f |}.
Proof. reflexivity. Qed.

(** A segment longer than the request is cut, and its tail stays. *)
Lemma recv_part_of_segment n bs rest o f :
  (0 < n < length bs)%nat ->
  recv n {| incoming := Segment bs :: rest; outgoing := o; send_fault := f |}
  = (Ok (take n bs),
     {| incoming := Segment (drop n bs) :: rest; outgoing := o; send_fault := f |}).
Proof.
  intros Hn. unfold recv. simpl.
  destruct bs as [|b bs]; [simpl in Hn; lia|].
  destruct (drop n (b :: bs)) as [|x tl] eqn:Hdrop; [|reflexivity].
  apply (f_equal length) in Hdrop. rewrite length_drop in Hdrop. simpl in *. lia.
Qed.

Section ExactRead.
Context `{JsonCodec}.

(** The payload loop takes from the stream the bytes it still needs and not
    one more: what follows them is left on the connection. *)
Lemma recv_payload_takes (segs : list (list byte)) : ∀ fuel n acc o f,
  (length acc <= n)%nat ->
  (n <= length acc + length (concat segs))%nat ->
  (n - length acc <= fuel)%nat ->
  ∃ segs',
    recv_payload fuel n acc
      {| incoming := Segment <$> segs; outgoing := o; send_fault := f |}
    = (Ok (acc ++ take (n - length acc) (concat segs))%list,
       {| incoming := Segment <$> segs'; outgoing := o; send_fault := f |})
    ∧ concat segs' = drop (n - length acc) (concat segs).
Proof.
  induction segs as [|bs segs IH]; intros fuel n acc o f Hacc Hn Hfuel.
  - simpl in Hn. exists []. simpl concat. split; [|by rewrite drop_nil].
    rewrite take_nil, app_nil_r.
    destruct fuel; simpl;
      (replace (length acc <? n)%nat with false
         by (symmetry; apply Nat.ltb_ge; lia)); reflexivity.
  - destruct (decide (length acc = n)) as [Heq|Hne].
    { exists (bs :: segs). rewrite Heq, Nat.sub_diag, take_0, drop_0, app_nil_r.
      split; [|done].
      destruct fuel; simpl;
        (replace (length acc <? n)%nat with false
           by (symmetry; apply Nat.ltb_ge; lia)); reflexivity. }
    destruct fuel as [|fuel]; [lia|].
    simpl in Hn. rewrite length_app in Hn.
    destruct bs as [|b bs].
    { (* an empty segment is passed over by [recv] *)
      destruct (IH (S fuel) n acc o f) as (segs' & Hrun & Hcat);
        [done | simpl in Hn; lia | done |].
      exists segs'. change (concat ([] :: segs)) with (concat segs).
      split; [|done]. rewrite <- Hrun.
      simpl. replace (length acc <? n)%nat with true
        by (symmetry; apply Nat.ltb_lt; lia).
      unfold mbind, M_bind. by rewrite recv_skips_empty_segment. }
    remember (b :: bs) as seg eqn:Hseg.
    assert (Hpos : (0 < length seg)%nat) by (subst seg; simpl; lia).
    assert (Hm : ∀ (A : Type) (x y : A),
               match seg with [] => x | _ :: _ => y end = y)
      by (intros; rewrite Hseg; reflexivity).
    change (recv_payload (S fuel) n acc) with
      (if (length acc <? n)%nat
       then chunk ← recv (n - length acc);
            match chunk with
            | [] => raise (ConnectionError "Connection closed before message complete")
            | _ => recv_payload fuel n (acc ++ chunk)
            end
       else mret acc).
    replace (length acc <? n)%nat with true by (symmetry; apply Nat.ltb_lt; lia).
    unfold mbind, M_bind.
    change (Segment <$> seg :: segs) with (Segment seg :: (Segment <$> segs)).
    destruct (decide (length seg <= n - length acc)%nat) as [Hfit|Hcut].
    + rewrite recv_whole_segment by (subst seg; done || lia). rewrite Hm.
      destruct (IH fuel n (acc ++ seg)%list o f) as (segs' & Hrun & Hcat);
        [rewrite length_app; lia | rewrite length_app; lia
        | rewrite length_app; lia |].
      exists segs'. rewrite length_app in Hrun, Hcat.
      replace (n - (length acc + length seg))%nat
        with (n - length acc - length seg)%nat in Hrun, Hcat by lia.
      rewrite Hrun. change (concat (seg :: segs)) with (seg ++ concat segs)%list.
      split.
      * rewrite take_app_ge by lia. by rewrite <- app_assoc.
      * by rewrite drop_app_ge by lia.
    + rewrite recv_part_of_segment by lia.
      assert (Htake : take (n - length acc) seg ≠ []).
      { intros Hnil. apply (f_equal length) in Hnil.
        rewrite length_take in Hnil. simpl in Hnil. lia. }
      destruct (take (n - length acc) seg) as [|x chunk] eqn:Hchunk; [done|].
      rewrite <- Hchunk.
      exists (drop (n - length acc) seg :: segs). split.
      * assert (Hdone : length (acc ++ take (n - length acc) seg)%list = n)
          by (rewrite length_app, length_take; lia).
        change (concat (seg :: segs)) with (seg ++ concat segs)%list.
        rewrite take_app_le by lia.
        destruct fuel; simpl;
          (replace (length (acc ++ take (n - length acc) seg) <? n)%nat with false
             by (symmetry; apply Nat.ltb_ge; lia)); reflexivity.
      * change (concat (seg :: segs)) with (seg ++ concat segs)%list.
        simpl concat. by rewrite drop_app_le by lia.
Qed.
End ExactRead.

Section OneFrame.
Context `{JsonCodec}.

(** However a stream is cut into segments, provided the first read brings
    the four bytes of the prefix, [socket_recv] decodes the payload the
    prefix declares and leaves the bytes that follow it on the connection. *)
Lemma socket_recv_one_frame (s0 : list byte) (segs : list (list byte))
    (hdr payload extra o : list byte) (f : option exn) :
  (4 <= length s0)%nat ->
  concat (s0 :: segs) = (hdr ++ payload ++ extra)%list ->
  length hdr = 4%nat ->
  unpack_u32 hdr = Ok (Z.of_nat (length payload)) ->
  ∃ segs',
    socket_recv
      {| incoming := Segment <$> (s0 :: segs); outgoing := o; send_fault := f |}
    = (json_loads payload,
       {| incoming := Segment <$> segs'; outgoing := o; send_fault := f |})
    ∧ concat segs' = extra.
Proof.
  intros Hs0 Hcat Hhdr Hunpack.
  change (concat (s0 :: segs)) with (s0 ++ concat segs)%list in Hcat.
  assert (Htake : take 4 s0 = hdr).
  { apply (f_equal (take 4)) in Hcat.
    rewrite take_app_le in Hcat by lia. rewrite Hcat.
    rewrite take_app_le by lia. by rewrite take_ge by lia. }
  assert (Hdrop : (drop 4 s0 ++ concat segs)%list = (payload ++ extra)%list).
  { apply (f_equal (drop 4)) in Hcat.
    rewrite drop_app_le in Hcat by lia. rewrite Hcat.
    rewrite drop_app_ge by lia. rewrite Hhdr, Nat.sub_diag. by rewrite drop_0. }
  assert (Hrecv :
    recv 4 {| incoming := Segment <$> (s0 :: segs); outgoing := o; send_fault := f |}
    = (Ok hdr,
       {| incoming := Segment <$> (drop 4 s0 :: segs);
          outgoing := o; send_fault := f |})
    ∨ recv 4 {| incoming := Segment <$> (s0 :: segs); outgoing := o; send_fault := f |}
      = (Ok hdr,
         {| incoming := Segment <$> segs; outgoing := o; send_fault := f |})
      ∧ drop 4 s0 = []).
  { change (Segment <$> s0 :: segs) with (Segment s0 :: (Segment <$> segs)).
    destruct (decide (length s0 = 4%nat)) as [Heq|Hne].
    - right. rewrite recv_whole_segment by (destruct s0; simpl in *; (done || lia)).
      rewrite <- Htake, take_ge by lia. split; [done|]. by rewrite drop_ge by lia.
    - left. rewrite recv_part_of_segment by lia. by rewrite Htake. }
  unfold socket_recv, mbind, M_bind.
  assert (Hne : hdr ≠ []) by (destruct hdr; simpl in *; (done || lia)).
  destruct Hrecv as [Hrecv | [Hrecv Hnil]]; rewrite Hrecv;
    (destruct hdr as [|h0 hdr']; [done|]);
    unfold lift at 1; rewrite Hunpack, Nat2Z.id.
  - destruct (recv_payload_takes (drop 4 s0 :: segs) (length payload)
                (length payload) [] o f) as (segs' & Hrun & Hrest).
    + simpl; lia.
    + change (concat (drop 4 s0 :: segs)) with (drop 4 s0 ++ concat segs)%list.
      rewrite Hdrop, length_app. simpl. lia.
    + simpl; lia.
    + exists segs'. rewrite Hrun.
      change (concat (drop 4 s0 :: segs)) with (drop 4 s0 ++ concat segs)%list
        in Hrest |- *.
      rewrite Hdrop in Hrest |- *. simpl length. rewrite Nat.sub_0_r in Hrest |- *.
      rewrite take_app_le, take_ge by lia.
      rewrite drop_app_ge, Nat.sub_diag, drop_0 in Hrest by lia.
      split; [reflexivity | done].
  - rewrite Hnil in Hdrop. simpl in Hdrop.
    destruct (recv_payload_takes segs (length payload) (length payload) [] o f)
      as (segs' & Hrun & Hrest).
    + simpl; lia.
    + rewrite Hdrop, length_app. simpl. lia.
    + simpl; lia.
    + exists segs'. rewrite Hrun.
      rewrite Hdrop in Hrest |- *. simpl length. rewrite Nat.sub_0_r in Hrest |- *.
      rewrite take_app_le, take_ge by lia.
      rewrite drop_app_ge, Nat.sub_diag, drop_0 in Hrest by lia.
      split; [reflexivity | done].
Qed.
End OneFrame.

(** X3. [socket_recv] reads exactly one frame.  For a stream cut into
    segments in any way, as long as the first read brings the whole length
    prefix, it returns the decoded payload of the declared length, and the
    bytes after that payload are still on the connection. *)
Theorem X3_reads_exactly_one_frame `{JsonCodec}
    (s0 : list byte) (segs : list (list byte))
    (hdr payload extra o : list byte) (f : option exn) :
  (4 <= length s0)%nat ->
  concat (s0 :: segs) = (hdr ++ payload ++ extra)%list ->
  length hdr = 4%nat ->
  unpack_u32 hdr = Ok (Z.of_nat (length payload)) ->
  ∃ segs',
    socket_recv
      {| incoming := Segment <$> (s0 :: segs); outgoing := o; send_fault := f |}
    = (json_loads payload,
       {| incoming := Segment <$> segs'; outgoing := o; send_fault := f |})
    ∧ concat segs' = extra.
Proof. apply socket_recv_one_frame. Qed.

Lemma X3_reads_exactly_one_frame_witness :
  let data := PDict [("prompt", PStr "2+2?")] in
  ∃ segs',
    socket_recv
      {| incoming :=
           Segment <$> [take 6 (frame data); (drop 6 (frame data) ++ [x7b])%list; [x7d]];
         outgoing := []; send_fault := None |}
    = (Ok data,
       {| incoming := Segment <$> segs'; outgoing := []; send_fault := None |})
    ∧ concat segs' = [x7b; x7d].
Proof.
  exact (X3_reads_exactly_one_frame
           (take 6 (frame (PDict [("prompt", PStr "2+2?")])))
           [(drop 6 (frame (PDict [("prompt", PStr "2+2?")])) ++ [x7b])%list; [x7d]]
           (take 4 (frame (PDict [("prompt", PStr "2+2?")])))
           (json_dumps (PDict [("prompt", PStr "2+2?")]))
           [x7b; x7d] [] None
           ltac:(vm_compute; lia) ltac:(vm_compute; reflexivity)
           ltac:(vm_compute; reflexivity) ltac:(vm_compute; reflexivity)).
Defined.

(** X4. What [socket_send] writes, [socket_recv] reads back: the bytes one
    end writes for a message, delivered to the other end in two segments cut
    anywhere after the prefix, are decoded from the payload that was
    encoded. *)
Theorem X4_sent_message_is_received `{JsonCodec}
    (sender : socket) (data : pyval) (k : nat) :
  can_send sender data ->
  outgoing sender = [] ->
  (4 <= k)%nat ->
  let wire := outgoing (socket_send data sender).2 in
  (socket_send data sender).1 = Ok tt
  ∧ (socket_recv {| incoming := Segment <$> [take k wire; drop k wire];
                    outgoing := []; send_fault := None |}).1
    = json_loads (json_dumps data).
Proof.
  intros Hsend Hout Hk wire.
  assert (Hwire : wire = frame data).
  { unfold wire. rewrite socket_send_ok by done. simpl. by rewrite Hout. }
  split; [by rewrite socket_send_ok|].
  destruct Hsend as [_ Hfit].
  destruct (unpack_pack_u32 (Z.of_nat (length (json_dumps data))))
    as (hdr & Hpack & Hlen & Hunpack); [lia|].
  unfold pack_u32 in Hpack. destruct ((0 <=? _) && _) in Hpack; [|done].
  injection Hpack as <-.
  match type of Hlen with
  | length ?h = _ =>
      destruct (socket_recv_one_frame (take k wire) [drop k wire] h
                  (json_dumps data) [] [] None) as (segs' & Hrecv & _)
  end.
  - rewrite length_take, Hwire. unfold frame. rewrite length_app. simpl. lia.
  - simpl. rewrite !app_nil_r, take_drop. by rewrite Hwire.
  - exact Hlen.
  - exact Hunpack.
  - by rewrite Hrecv.
Qed.

Lemma X4_sent_message_is_received_witness :
  let data := PDict [("content", PStr "4")] in
  let sender := {| incoming := []; outgoing := []; send_fault := None |} in
  let wire := outgoing (socket_send data sender).2 in
  (socket_send data sender).1 = Ok tt
  ∧ (socket_recv {| incoming := Segment <$> [take 9 wire; drop 9 wire];
                    outgoing := []; send_fault := None |}).1
    = Ok data.
Proof.
  assert (Hsend : can_send {| incoming := []; outgoing := []; send_fault := None |}
                    (PDict [("content", PStr "4")]))
    by (split; [reflexivity | vm_compute; reflexivity]).
  exact (X4_sent_message_is_received
           {| incoming := []; outgoing := []; send_fault := None |}
           (PDict [("content", PStr "4")]) 9 Hsend eq_refl ltac:(lia)).
Defined.

(** X5. A peer that closes the connection without sending a byte is taken
    for an empty request: [socket_recv] returns the empty dict and leaves the
    connection as it is, and the handler answers with the missing-prompt
    error response without asking any client. *)
Theorem X5_closed_connection_is_an_empty_request {Ext : Type} `{JsonCodec}
    (handler : LMHandler Ext) (sock : socket) (w : World Ext) :
  incoming sock = [] ->
  can_send sock (error_payload "Missing or invalid 'prompt' in request.") ->
  socket_recv sock = (Ok (PDict []), sock)
  ∧ handle handler (sock, w)
    = (Ok tt,
       (sent sock (error_payload "Missing or invalid 'prompt' in request."), w)).
Proof.
  intros Hclosed Hsend.
  pose proof (socket_recv_closed sock Hclosed) as Hrecv.
  split; [done|].
  by apply (handle_protocol_error handler sock sock w (Ok (PDict [])) _ Hrecv
              (prompt_missing [] eq_refl)).
Qed.

Lemma X5_closed_connection_is_an_empty_request_witness :
  let closed := {| incoming := []; outgoing := []; send_fault := None |} in
  socket_recv closed = (Ok (PDict []), closed)
  ∧ handle scripted_handler (closed, fresh_world)
    = (Ok tt,
       (sent closed (error_payload "Missing or invalid 'prompt' in request."),
        fresh_world)).
Proof.
  assert (Hsend : can_send {| incoming := []; outgoing := []; send_fault := None |}
                    (error_payload "Missing or invalid 'prompt' in request."))
    by (split; [reflexivity | vm_compute; reflexivity]).
  exact (X5_closed_connection_is_an_empty_request scripted_handler
           {| incoming := []; outgoing := []; send_fault := None |} fresh_world
           eq_refl Hsend).
Defined.

(** X6. A peer that closes after the length prefix and before the declared
    payload is complete makes [socket_recv] raise [ConnectionError], however
    the bytes that did arrive were cut. *)
Theorem X6_truncated_payload_raises `{JsonCodec}
    (hdr first : list byte) (segs : list (list byte)) (n : Z)
    (o : list byte) (f : option exn) :
  length hdr = 4%nat ->
  unpack_u32 hdr = Ok n ->
  Forall (λ bs, bs ≠ []) segs ->
  Z.of_nat (length (first ++ concat segs)%list) < n ->
  socket_recv
    {| incoming := Segment (hdr ++ first) :: (Segment <$> segs);
       outgoing := o; send_fault := f |}
  = (Raise (ConnectionError "Connection closed before message complete"),
     {| incoming := []; outgoing := o; send_fault := f |}).
Proof. apply socket_recv_truncated. Qed.

Lemma X6_truncated_payload_raises_witness :
  socket_recv
    {| incoming := [Segment [x00; x00; x00; x05; x7b]; Segment [x7d]];
       outgoing := []; send_fault := None |}
  = (Raise (ConnectionError "Connection closed before message complete"),
     {| incoming := []; outgoing := []; send_fault := None |}).
Proof.
  assert (Hsegs : Forall (λ bs : list byte, bs ≠ []) [[x7d]])
    by (constructor; [discriminate | constructor]).
  assert (Hshort : Z.of_nat (length ([x7b] ++ concat [[x7d]])%list) < 5)
    by (vm_compute; reflexivity).
  exact (X6_truncated_payload_raises [x00; x00; x00; x05] [x7b] [[x7d]] 5 [] None
           eq_refl eq_refl Hsegs Hshort).
Defined.

(** X7. The length prefix is not buffered across reads.  When the first read
    brings one to three bytes, [socket_recv] raises [struct.error] and reads
    no further, whatever follows on the connection -- the rest of a
    well-formed frame included. *)
Theorem X7_split_prefix_raises `{JsonCodec}
    (bs : list byte) (rest : list recv_event) (o : list byte) (f : option exn) :
  (0 < length bs < 4)%nat ->
  socket_recv {| incoming := Segment bs :: rest; outgoing := o; send_fault := f |}
  = (Raise (struct_error "unpack requires a buffer of 4 bytes"),
     {| incoming := rest; outgoing := o; send_fault := f |}).
Proof. apply socket_recv_short_prefix. Qed.

Lemma X7_split_prefix_raises_witness :
  let wire := frame (PDict [("prompt", PStr "2+2?")]) in
  socket_recv {| incoming := [Segment (take 2 wire); Segment (drop 2 wire)];
                 outgoing := []; send_fault := None |}
  = (Raise (struct_error "unpack requires a buffer of 4 bytes"),
     {| incoming := [Segment (drop 2 wire)]; outgoing := []; send_fault := None |}).
Proof.
  assert (Hlen : (0 < length (take 2 (frame (PDict [("prompt", PStr "2+2?")]))) < 4)%nat)
    by (vm_compute; lia).
  exact (X7_split_prefix_raises
           (take 2 (frame (PDict [("prompt", PStr "2+2?")])))
           [Segment (drop 2 (frame (PDict [("prompt", PStr "2+2?")])))] [] None
           Hlen).
Defined.

(** X8. A server that takes the request and closes without replying is
    reported as a success: the helper returns a response with no error and no
    content. *)
Theorem X8_unanswered_request_reports_success `{JsonCodec} `{Network}
    (address : string * Z) (request : LMRequest.t) (timeout : option Z)
    (sock : socket) :
  connect address (default 300 timeout) = Ok sock ->
  can_send sock (PDict (LMRequest.to_dict request)) ->
  incoming sock = [] ->
  send_lm_request address request timeout
  = {| LMResponse.content := PNone; LMResponse.error := PNone |}
  ∧ LMResponse.success (send_lm_request address request timeout) = true.
Proof.
  intros Hconn Hsend Hin.
  assert (Hreq : socket_request address (PDict (LMRequest.to_dict request)) timeout
                 = Ok (PDict [])).
  { unfold socket_request, default_timeout. rewrite Hconn.
    unfold mbind, M_bind. rewrite socket_send_ok by done.
    by rewrite socket_recv_closed. }
  unfold send_lm_request. rewrite Hreq. simpl. done.
Qed.

Lemma X8_unanswered_request_reports_success_witness :
  let request := {| LMRequest.prompt := PStr "2+2?"; LMRequest.model := PNone |} in
  @send_lm_request scripted_codec closing_network ("127.0.0.1", 50007) request None
  = {| LMResponse.content := PNone; LMResponse.error := PNone |}
  ∧ LMResponse.success
      (@send_lm_request scripted_codec closing_network ("127.0.0.1", 50007)
         request None) = true.
Proof.
  assert (Hsend : can_send {| incoming := []; outgoing := []; send_fault := None |}
                    (PDict (LMRequest.to_dict
                              {| LMRequest.prompt := PStr "2+2?";
                                 LMRequest.model := PNone |})))
    by (split; [reflexivity | vm_compute; reflexivity]).
  exact (@X8_unanswered_request_reports_success scripted_codec closing_network
           ("127.0.0.1", 50007)
           {| LMRequest.prompt := PStr "2+2?"; LMRequest.model := PNone |} None
           {| incoming := []; outgoing := []; send_fault := None |}
           eq_refl Hsend eq_refl).
Defined.

(** ** Dispatch in the router *)

Section DispatchFacts.
Context {Ext : Type} `{JsonCodec}.
Implicit Types (handler : LMHandler Ext) (w : World Ext) (sock : socket).

(** For a request that passes the checks, [handle] does what the in-process
    shortcut does and then reports the outcome on the connection. *)
Lemma handle_dispatches handler sock sock1 w d :
  socket_recv sock = (Ok (PDict d), sock1) ->
  truthy (LMRequest.prompt (LMRequest.from_dict d)) = true ->
  handle handler (sock, w)
  = match handler_completion handler (LMRequest.prompt (LMRequest.from_dict d))
            (LMRequest.model (LMRequest.from_dict d)) w with
    | (Ok content, w') =>
        try_except (send_response (LMResponse.success_response content))
          (λ e, send_response (LMResponse.error_response (str_exn e))) (sock1, w')
    | (Raise e, w') =>
        send_response (LMResponse.error_response (str_exn e)) (sock1, w')
    end.
Proof.
  intros Hrecv Hprompt.
  unfold handle, try_except, mbind, M_bind. unfold on_fst at 1.
  cbn [fst snd]. rewrite Hrecv. cbn [is_dict negb as_dict]. rewrite Hprompt.
  cbn [negb]. unfold handler_completion, mbind, M_bind, lift, on_snd.
  cbn [fst snd].
  destruct (get_client handler _) as [client|e]; [|done].
  by destruct (completion_call client _ w) as [[content|e] w'].
Qed.

(** The shortcut makes at most one completion call, and none when no client
    can be resolved. *)
Lemma handler_completion_calls handler prompt model w :
  lm_calls (handler_completion handler prompt model w).2 = lm_calls w
  ∨ ∃ name,
      lm_calls (handler_completion handler prompt model w).2
      = (lm_calls w ++ [(name, prompt)])%list.
Proof.
  unfold handler_completion, mbind, M_bind, lift.
  destruct (get_client handler model) as [client|e]; [|by left].
  right. exists (model_name client). unfold completion_call.
  by destruct (lm_completion client prompt (ext w)).
Qed.
End DispatchFacts.

(** X9. The router serves a well-formed request exactly as its in-process
    shortcut would: when [completion] of the handler returns a text for the
    request's prompt and model, the world ends up the same and the
    connection gets one frame, the success response with that text. *)
Theorem X9_handle_serves_like_the_shortcut {Ext : Type} `{JsonCodec}
    (handler : LMHandler Ext) (sock sock1 : socket) (w w' : World Ext)
    (d : pydict) (content : string) :
  let request := LMRequest.from_dict d in
  let reply := PDict (LMResponse.to_dict (LMResponse.success_response content)) in
  socket_recv sock = (Ok (PDict d), sock1) ->
  truthy (LMRequest.prompt request) = true ->
  handler_completion handler (LMRequest.prompt request) (LMRequest.model request) w
  = (Ok content, w') ->
  can_send sock1 reply ->
  handle handler (sock, w) = (Ok tt, (sent sock1 reply, w')).
Proof.
  intros request reply Hrecv Hprompt Hcall Hsend.
  rewrite (handle_dispatches _ _ _ _ _ Hrecv Hprompt).
  fold request. rewrite Hcall. unfold try_except.
  by rewrite send_response_ok.
Qed.

Lemma X9_handle_serves_like_the_shortcut_witness :
  let closed := {| incoming := []; outgoing := []; send_fault := None |} in
  handle calculator_handler (delivering (PDict [("prompt", PStr "2+2?")]), fresh_world)
  = (Ok tt,
     (sent closed (PDict [("content", PStr "4")]),
      (handler_completion calculator_handler (PStr "2+2?") PNone fresh_world).2)).
Proof.
  assert (Hsend : can_send {| incoming := []; outgoing := []; send_fault := None |}
                    (PDict (LMResponse.to_dict (LMResponse.success_response "4"))))
    by (split; [reflexivity | vm_compute; reflexivity]).
  assert (Hrecv : socket_recv (delivering (PDict [("prompt", PStr "2+2?")]))
                  = (Ok (PDict [("prompt", PStr "2+2?")]),
                     {| incoming := []; outgoing := []; send_fault := None |}))
    by (vm_compute; reflexivity).
  exact (X9_handle_serves_like_the_shortcut calculator_handler _ _ fresh_world _
           [("prompt", PStr "2+2?")] "4" Hrecv eq_refl eq_refl Hsend).
Defined.

(** X10. A failure of the dispatch stays in the connection handler.  When
    the completion raises -- the provider fails, or no client can be
    resolved -- [handle] returns normally and the connection gets one frame,
    the error response carrying the exception's message. *)
Theorem X10_handle_reports_provider_errors {Ext : Type} `{JsonCodec}
    (handler : LMHandler Ext) (sock sock1 : socket) (w w' : World Ext)
    (d : pydict) (e : exn) :
  let request := LMRequest.from_dict d in
  socket_recv sock = (Ok (PDict d), sock1) ->
  truthy (LMRequest.prompt request) = true ->
  handler_completion handler (LMRequest.prompt request) (LMRequest.model request) w
  = (Raise e, w') ->
  can_send sock1 (error_payload (str_exn e)) ->
  handle handler (sock, w) = (Ok tt, (sent sock1 (error_payload (str_exn e)), w')).
Proof.
  intros request Hrecv Hprompt Hcall Hsend.
  rewrite (handle_dispatches _ _ _ _ _ Hrecv Hprompt).
  fold request. rewrite Hcall. by rewrite send_response_ok.
Qed.

Lemma X10_handle_reports_provider_errors_witness :
  let closed := {| incoming := []; outgoing := []; send_fault := None |} in
  handle failing_handler (delivering (PDict [("prompt", PStr "2+2?")]), fresh_world)
  = (Ok tt,
     (sent closed (error_payload "rate limited"),
      (handler_completion failing_handler (PStr "2+2?") PNone fresh_world).2)).
Proof.
  assert (Hsend : can_send {| incoming := []; outgoing := []; send_fault := None |}
                    (error_payload "rate limited"))
    by (split; [reflexivity | vm_compute; reflexivity]).
  assert (Hrecv : socket_recv (delivering (PDict [("prompt", PStr "2+2?")]))
                  = (Ok (PDict [("prompt", PStr "2+2?")]),
                     {| incoming := []; outgoing := []; send_fault := None |}))
    by (vm_compute; reflexivity).
  exact (X10_handle_reports_provider_errors failing_handler _ _ fresh_world _
           [("prompt", PStr "2+2?")] (Exn "ProviderError" "rate limited")
           Hrecv eq_refl eq_refl Hsend).
Defined.

(** X11. One connection costs at most one completion: whatever arrives and
    whatever fails, after [handle] the record of completion calls is as
    before or longer by one call, and nothing was executed and no dict was
    written. *)
Theorem X11_at_most_one_completion_per_connection {Ext : Type} `{JsonCodec}
    (handler : LMHandler Ext) (sock : socket) (w : World Ext) :
  let w' := (handle handler (sock, w)).2.2 in
  (lm_calls w' = lm_calls w
   ∨ ∃ name prompt, lm_calls w' = (lm_calls w ++ [(name, prompt)])%list)
  ∧ executed w' = executed w
  ∧ heap w' = heap w.
Proof.
  intros w'. subst w'.
  destruct (socket_recv sock) as [[v|e] sock1] eqn:Hrecv.
  - destruct (is_dict v) eqn:Hdict.
    + destruct v as [| | | | |d]; try discriminate.
      destruct (truthy (LMRequest.prompt (LMRequest.from_dict d))) eqn:Hprompt.
      * rewrite (handle_dispatches _ _ _ _ _ Hrecv Hprompt).
        pose proof (handler_completion_calls handler
                      (LMRequest.prompt (LMRequest.from_dict d))
                      (LMRequest.model (LMRequest.from_dict d)) w) as Hcalls.
        assert (Hframe :
          executed (handler_completion handler
                      (LMRequest.prompt (LMRequest.from_dict d))
                      (LMRequest.model (LMRequest.from_dict d)) w).2 = executed w
          ∧ heap (handler_completion handler
                    (LMRequest.prompt (LMRequest.from_dict d))
                    (LMRequest.model (LMRequest.from_dict d)) w).2 = heap w).
        { unfold handler_completion, mbind, M_bind, lift, completion_call.
          destruct (get_client handler _) as [client|e]; [|done].
          by destruct (lm_completion client _ (ext w)). }
        destruct (handler_completion handler _ _ w) as [[content|e] w1].
        -- unfold try_except.
           pose proof (send_response_world
                         (LMResponse.success_response content) sock1 w1) as Hw.
           destruct (send_response (LMResponse.success_response content) (sock1, w1))
             as [[[]|e] [sock2 w2]]; simpl in Hw; subst w2.
           ++ simpl in *. destruct Hframe as [-> ->]; destruct Hcalls as [->|[name ->]]; eauto 6.
           ++ rewrite send_response_world. simpl in *.
              destruct Hframe as [-> ->]; destruct Hcalls as [->|[name ->]]; eauto 6.
        -- rewrite send_response_world. simpl in *.
           destruct Hframe as [-> ->]; destruct Hcalls as [->|[name ->]]; eauto 6.
      * assert (Herr : protocol_error (Ok (PDict d))
                         "Missing or invalid 'prompt' in request.").
        { unfold LMRequest.from_dict, dict_get in Hprompt. simpl in Hprompt.
          destruct (dict_lookup "prompt" d) as [p|] eqn:Hp.
          - by eapply prompt_empty.
          - by apply prompt_missing. }
        destruct (handle_protocol_error handler _ _ w _ _ Hrecv Herr) as [-> _].
        auto.
    + destruct (handle_protocol_error handler _ _ w _ _ Hrecv
                  (not_an_object v Hdict)) as [-> _]. auto.
  - destruct (handle_protocol_error handler _ _ w _ _ Hrecv (malformed e))
      as [-> _]. auto.
Qed.

(** ** The client table *)

(** X12. Registration and resolution: after a client has been registered
    under a non-empty name, that name resolves to it, whatever was
    registered under the name before, and every other name resolves as it
    did. *)
Theorem X12_registered_client_is_resolved {Ext : Type}
    (handler : LMHandler Ext) (name : string) (client : BaseLM Ext) :
  name ≠ "" ->
  get_client (register_client handler name client) (PStr name) = Ok client
  ∧ ∀ other, other ≠ name ->
      get_client (register_client handler name client) (PStr other)
      = get_client handler (PStr other).
Proof.
  intros Hname. split.
  - unfold get_client, model_in_clients. simpl.
    destruct (String.eqb name "") eqn:Hempty.
    { apply String.eqb_eq in Hempty. done. }
    simpl. rewrite lookup_insert_eq. done.
  - intros other Hother. unfold get_client, model_in_clients. simpl.
    by rewrite lookup_insert_ne.
Qed.

Lemma X12_registered_client_is_resolved_witness :
  get_client scripted_handler (PStr "portkey")
  = Ok (scripted_client "portkey" "FINAL 4")
  ∧ ∀ other, other ≠ "portkey" ->
      get_client scripted_handler (PStr other)
      = get_client (LMHandler_init (scripted_client "gpt" "try both") None None)
          (PStr other).
Proof.
  exact (X12_registered_client_is_resolved
           (LMHandler_init (scripted_client "gpt" "try both") None None)
           "portkey" (scripted_client "portkey" "FINAL 4")
           ltac:(discriminate)).
Defined.

(** X13. Resolution falls back on the default client when the model is
    absent, is the empty string -- even if a client was registered under the
    empty name --, is not the name of a registered client, or is a number or
    a boolean. *)
Theorem X13_unresolved_models_get_the_default {Ext : Type}
    (handler : LMHandler Ext) (client : BaseLM Ext) :
  get_client handler PNone = Ok (default_client handler)
  ∧ get_client (register_client handler "" client) (PStr "")
    = Ok (default_client handler)
  ∧ (∀ name, clients handler !! name = None ->
             get_client handler (PStr name) = Ok (default_client handler))
  ∧ (∀ n, get_client handler (PInt n) = Ok (default_client handler))
  ∧ (∀ b, get_client handler (PBool b) = Ok (default_client handler)).
Proof.
  repeat split.
  - intros name Hname. unfold get_client, model_in_clients.
    destruct (truthy (PStr name)); [|done].
    rewrite Hname. rewrite bool_decide_eq_false_2; [done|].
    by intros [? ?].
  - intros n. unfold get_client. simpl. by destruct (negb (n =? 0)).
  - intros b. unfold get_client. simpl. by destruct b.
Qed.

(** X14. A request whose model is a non-empty list cannot be looked up in
    the client table, a list not being hashable: the handler asks no client
    and answers with the error response carrying the [TypeError]. *)
Theorem X14_unhashable_model_is_an_error {Ext : Type} `{JsonCodec}
    (handler : LMHandler Ext) (sock sock1 : socket) (w : World Ext)
    (d : pydict) (x : pyval) (l : list pyval) :
  socket_recv sock = (Ok (PDict d), sock1) ->
  truthy (LMRequest.prompt (LMRequest.from_dict d)) = true ->
  dict_lookup "model" d = Some (PList (x :: l)) ->
  can_send sock1 (error_payload "unhashable type: 'list'") ->
  handle handler (sock, w)
  = (Ok tt, (sent sock1 (error_payload "unhashable type: 'list'"), w)).
Proof.
  intros Hrecv Hprompt Hmodel Hsend.
  rewrite (handle_dispatches _ _ _ _ _ Hrecv Hprompt).
  unfold LMRequest.from_dict at 2, dict_get. simpl. rewrite Hmodel. simpl.
  unfold handler_completion, mbind, M_bind, lift. simpl.
  by rewrite send_response_ok.
Qed.

Lemma X14_unhashable_model_is_an_error_witness :
  let request := PDict [("prompt", PStr "2+2?"); ("model", PList [PStr "gpt"])] in
  let codec := table_codec [request] in
  let closed := {| incoming := []; outgoing := []; send_fault := None |} in
  @handle nat codec scripted_handler (@delivering codec request, fresh_world)
  = (Ok tt,
     (@sent codec closed (error_payload "unhashable type: 'list'"), fresh_world)).
Proof.
  pose (request := PDict [("prompt", PStr "2+2?"); ("model", PList [PStr "gpt"])]).
  assert (Hrecv : @socket_recv (table_codec [request])
                    (@delivering (table_codec [request]) request)
                  = (Ok request,
                     {| incoming := []; outgoing := []; send_fault := None |}))
    by (vm_compute; reflexivity).
  assert (Hsend : @can_send (table_codec [request])
                    {| incoming := []; outgoing := []; send_fault := None |}
                    (error_payload "unhashable type: 'list'"))
    by (split; [reflexivity | vm_compute; reflexivity]).
  exact (@X14_unhashable_model_is_an_error nat (table_codec [request])
           scripted_handler _ _ fresh_world
           [("prompt", PStr "2+2?"); ("model", PList [PStr "gpt"])]
           (PStr "gpt") [] Hrecv eq_refl eq_refl Hsend).
Defined.

(** ** Starting and stopping the router *)



(** ** The two ends of the wire *)

Section EndToEnd.
Context {Ext : Type} `{JsonCodec}.

Lemma socket_recv_framed (data : pyval) (o : list byte) (f : option exn) :
  Z.of_nat (length (json_dumps data)) < 2 ^ 32 ->
  socket_recv {| incoming := [Segment (frame data)]; outgoing := o; send_fault := f |}
  = (json_loads (json_dumps data),
     {| incoming := []; outgoing := o; send_fault := f |}).
Proof.
  intros Hfit.
  destruct (unpack_pack_u32 (Z.of_nat (length (json_dumps data))))
    as (hdr & Hpack & Hlen & Hunpack); [lia|].
  unfold pack_u32 in Hpack. destruct ((0 <=? _) && _) in Hpack; [|done].
  injection Hpack as <-.
  pose proof (socket_recv_reassembles _ (json_dumps data) [] [] o f Hlen) as Hr.
  change (concat []) with (@nil byte) in Hr. rewrite !app_nil_r in Hr.
  unfold frame. exact (Hr Hunpack (Forall_nil_2 _)).
Qed.

Lemma success_response_roundtrip (s : string) :
  LMResponse.from_dict (LMResponse.to_dict (LMResponse.success_response s))
  = LMResponse.success_response s.
Proof.
  unfold LMResponse.success_response, LMResponse.to_dict, LMResponse.from_dict,
    dict_get. simpl.
  destruct (String.eqb s "") eqn:Hs; simpl; [|reflexivity].
  apply String.eqb_eq in Hs. by subst.
Qed.

(** What the router writes back for a request it can serve. *)
Lemma handle_writes_success (handler : LMHandler Ext) (w w' : World Ext)
    (request : LMRequest.t) (content : string) :
  let data := PDict (LMRequest.to_dict request) in
  let reply := PDict (LMResponse.to_dict (LMResponse.success_response content)) in
  truthy (LMRequest.prompt request) = true ->
  json_loads (json_dumps data) = Ok data ->
  Z.of_nat (length (json_dumps data)) < 2 ^ 32 ->
  Z.of_nat (length (json_dumps reply)) < 2 ^ 32 ->
  handler_completion handler (LMRequest.prompt request) (LMRequest.model request) w
  = (Ok content, w') ->
  handle handler (delivering data, w)
  = (Ok tt,
     ({| incoming := []; outgoing := frame reply; send_fault := None |}, w')).
Proof.
  intros data reply Hprompt Hloads Hfit Hfit' Hcall.
  assert (Hrecv : socket_recv (delivering data)
                  = (Ok data, {| incoming := []; outgoing := []; send_fault := None |})).
  { rewrite socket_recv_frame by done. by rewrite Hloads. }
  rewrite (handle_dispatches handler _ _ w _ Hrecv);
    rewrite request_roundtrip; [|done].
  rewrite Hcall. unfold try_except.
  rewrite send_response_ok by (split; [done | exact Hfit']).
  reflexivity.
Qed.
End EndToEnd.

(** X16. The two ends of the wire agree.  The bytes that [socket_send]
    writes for a request on a connection just opened are, once they arrive
    at the router, decoded by [handle], which dispatches the request as the
    in-process shortcut does and writes its reply; and the bytes that
    [handle] wrote are, once they arrive on the client's connection, decoded
    by [socket_recv] and [LMResponse.from_dict] as the success response
    with the text of the completion.  The codec is asked to read back what
    it wrote for the two messages. *)
Theorem X16_router_serves_written_request {Ext : Type} `{JsonCodec}
    (handler : LMHandler Ext) (w w' : World Ext)
    (request : LMRequest.t) (content : string) :
  let data := PDict (LMRequest.to_dict request) in
  let reply := PDict (LMResponse.to_dict (LMResponse.success_response content)) in
  truthy (LMRequest.prompt request) = true ->
  json_loads (json_dumps data) = Ok data ->
  json_loads (json_dumps reply) = Ok reply ->
  Z.of_nat (length (json_dumps data)) < 2 ^ 32 ->
  Z.of_nat (length (json_dumps reply)) < 2 ^ 32 ->
  handler_completion handler (LMRequest.prompt request) (LMRequest.model request) w
  = (Ok content, w') ->
  let client := socket_send data opened in
  let server := handle handler (arriving (outgoing client.2), w) in
  let back := socket_recv (answered client.2 (outgoing server.2.1)) in
  client.1 = Ok tt
  ∧ server.1 = Ok tt
  ∧ server.2.2 = w'
  ∧ ∃ response_data,
      back.1 = Ok response_data
      ∧ response_from_value response_data
        = Ok (LMResponse.success_response content).
Proof.
  intros data reply Hprompt Hloads Hloads' Hfit Hfit' Hcall. cbv zeta.
  subst data reply.
  rewrite (socket_send_ok opened) by (split; [done | exact Hfit]).
  unfold sent, opened. cbn [fst snd incoming outgoing send_fault app].
  change (arriving (frame (PDict (LMRequest.to_dict request))))
    with (delivering (PDict (LMRequest.to_dict request))).
  rewrite (handle_writes_success handler w w' request content
             Hprompt Hloads Hfit Hfit' Hcall).
  cbn [fst snd outgoing]. unfold answered. cbn [incoming outgoing send_fault app].
  rewrite socket_recv_framed by exact Hfit'.
  cbn [fst]. rewrite Hloads'.
  split_and!; [done..|].
  eexists. split; [reflexivity|].
  cbn [response_from_value]. by rewrite success_response_roundtrip.
Qed.

Lemma X16_router_serves_written_request_witness :
  let data := PDict [("prompt", PStr "2+2?")] in
  let client := socket_send data opened in
  let server := handle calculator_handler (arriving (outgoing client.2), fresh_world) in
  let back := socket_recv (answered client.2 (outgoing server.2.1)) in
  client.1 = Ok tt
  ∧ server.1 = Ok tt
  ∧ server.2.2 = (handler_completion calculator_handler (PStr "2+2?") PNone fresh_world).2
  ∧ ∃ response_data,
      back.1 = Ok response_data
      ∧ response_from_value response_data = Ok (LMResponse.success_response "4").
Proof.
  assert (Hfit : Z.of_nat (length (json_dumps (PDict [("prompt", PStr "2+2?")])))
                 < 2 ^ 32) by (vm_compute; reflexivity).
  assert (Hfit' : Z.of_nat (length (json_dumps (PDict [("content", PStr "4")])))
                  < 2 ^ 32) by (vm_compute; reflexivity).
  exact (X16_router_serves_written_request calculator_handler fresh_world
           (handler_completion calculator_handler (PStr "2+2?") PNone fresh_world).2
           {| LMRequest.prompt := PStr "2+2?"; LMRequest.model := PNone |} "4"
           eq_refl eq_refl eq_refl Hfit Hfit' eq_refl).
Defined.

(** ** How the loop ends *)

Section LoopEnds.
Context {Ext : Type} `{Parsing}.
Implicit Types (self : RLM Ext) (w : World Ext).

(** The completions asked during a run, whatever its outcome: each goes to
    the default client, with the history so far -- the history the run started
    from, extended by the formatting of every iteration returned since --
    and there are at most as many as iterations. *)
Lemma iterate_asks self n : ∀ hist w,
  ∃ asked,
    lm_calls (iterate self n hist w).2 = (lm_calls w ++ asked)%list
    ∧ asks_histories self n hist w asked
    ∧ Forall (λ c, c.1 = model_name (default_client (lm_handler self))
                   ∧ ∃ later, c.2 = PList (hist ++ later)%list) asked
    ∧ (length asked <= n)%nat.
Proof.
  induction n as [|n IH]; intros hist w; simpl.
  - exists []. rewrite app_nil_r.
    split_and!; [done | constructor | constructor | simpl; lia].
  - unfold mbind, M_bind.
    pose proof (completion_turn_one_call self (PList hist) w) as Hcall.
    destruct (_completion_turn self (PList hist) w) as [[it|e] w1] eqn:Hturn;
      simpl in Hcall.
    + destruct (found (extract_final_answer it)) eqn:Hfound.
      * eexists [_]. split_and!; [exact Hcall | | | simpl; lia].
        -- eapply asks_until_answer; [exact Hturn | exact Hfound].
        -- constructor; [|constructor]. split; [done|].
           exists []. by rewrite app_nil_r.
      * destruct (IH (hist ++ format_iteration it)%list w1)
          as (asked & Hasked & Hchain & Hall & Hlen).
        eexists (_ :: asked). split_and!.
        -- rewrite Hasked, Hcall, <- app_assoc. reflexivity.
        -- eapply asks_and_goes_on; [exact Hturn | exact Hfound | exact Hchain].
        -- constructor.
           ++ split; [done|]. exists []. by rewrite app_nil_r.
           ++ eapply Forall_impl; [exact Hall|].
              intros c [Hname [later Hlater]]. split; [done|].
              exists (format_iteration it ++ later)%list.
              by rewrite Hlater, <- app_assoc.
        -- simpl. lia.
    + eexists [_]. split_and!; [exact Hcall | | | simpl; lia].
      * eapply asks_until_raise. exact Hturn.
      * constructor; [|constructor]. split; [done|].
        exists []. by rewrite app_nil_r.
Qed.
End LoopEnds.

(** X17. The loop stops at the first final answer.  When the first turn
    brings an iteration in which a non-empty final answer is found,
    [completion] returns that answer with the world as the turn left it:
    one completion was asked and no other follows. *)
Theorem X17_first_answer_is_returned {Ext : Type} `{Parsing}
    (self : RLM Ext) (prompt : pyval) (w w1 : World Ext)
    (it : RLMIteration) (answer : string) :
  0 < max_iterations self ->
  _completion_turn self (PList (_setup_prompt self prompt)) w = (Ok it, w1) ->
  extract_final_answer it = Some answer ->
  answer ≠ "" ->
  completion self prompt w = (Ok answer, w1)
  ∧ lm_calls w1
    = (lm_calls w ++ [(model_name (default_client (lm_handler self)),
                       PList (_setup_prompt self prompt))])%list.
Proof.
  intros Hiter Hturn Hanswer Hne.
  pose proof (completion_turn_one_call self (PList (_setup_prompt self prompt)) w)
    as Hcall.
  rewrite Hturn in Hcall. split; [|exact Hcall].
  unfold completion. destruct (Z.to_nat (max_iterations self)) as [|n] eqn:Hn; [lia|].
  simpl. unfold mbind, M_bind. rewrite Hturn, Hanswer. simpl.
  destruct (String.eqb answer "") eqn:Hempty; [|done].
  apply String.eqb_eq in Hempty. done.
Qed.

Lemma X17_first_answer_is_returned_witness :
  let self := rlm_with (scripted_client "portkey" "FINAL 4") scripted_env 10 in
  let w1 := (_completion_turn self (PList (_setup_prompt self (PStr "2+2?")))
               fresh_world).2 in
  completion self (PStr "2+2?") fresh_world = (Ok "4", w1)
  ∧ lm_calls w1
    = [("portkey", PList [PDict [("role", PStr "user"); ("content", PStr "2+2?")]])].
Proof.
  exact (X17_first_answer_is_returned
           (rlm_with (scripted_client "portkey" "FINAL 4") scripted_env 10)
           (PStr "2+2?") fresh_world _ _ "4"
           eq_refl eq_refl eq_refl ltac:(discriminate)).
Defined.

(** X18. With no iteration allowed -- [max_iterations] zero or negative --
    [completion] returns the fallback answer at once: no completion is
    asked, nothing is executed, the world is untouched. *)
Theorem X18_no_iterations_no_calls {Ext : Type} `{Parsing}
    (self : RLM Ext) (prompt : pyval) (w : World Ext) :
  max_iterations self <= 0 ->
  completion self prompt w
  = (Ok "The RLM ran out of iterations and did not find a final answer.", w).
Proof.
  intros Hiter. unfold completion.
  replace (Z.to_nat (max_iterations self)) with 0%nat by lia. reflexivity.
Qed.

Lemma X18_no_iterations_no_calls_witness :
  completion (scripted_rlm 1 (-2)) (PStr "2+2?") fresh_world
  = (Ok "The RLM ran out of iterations and did not find a final answer.",
     fresh_world).
Proof.
  exact (X18_no_iterations_no_calls (scripted_rlm 1 (-2)) (PStr "2+2?") fresh_world
           ltac:(simpl; lia)).
Defined.

(** X19. A failure of the model client is not caught by the loop.  When the
    client raises on the first turn, [completion] raises the same exception;
    the call is on the record and nothing has been executed. *)
Theorem X19_client_failure_propagates {Ext : Type} `{Parsing}
    (self : RLM Ext) (prompt : pyval) (w : World Ext) (e : exn) (x : Ext) :
  0 < max_iterations self ->
  lm_completion (default_client (lm_handler self))
    (PList (_setup_prompt self prompt)) (ext w) = (Raise e, x) ->
  ∃ w',
    completion self prompt w = (Raise e, w')
    ∧ length (lm_calls w') = S (length (lm_calls w))
    ∧ executed w' = executed w.
Proof.
  intros Hiter Hlm. unfold completion.
  destruct (Z.to_nat (max_iterations self)) as [|n] eqn:Hn; [lia|].
  simpl. unfold mbind, M_bind, _completion_turn, handler_completion, mbind,
    M_bind, lift, completion_call. simpl. rewrite Hlm.
  eexists. split_and!; [reflexivity | | reflexivity].
  simpl. rewrite length_app. simpl. lia.
Qed.

Lemma X19_client_failure_propagates_witness :
  ∃ w',
    completion (rlm_with (failing_client "down" "rate limited") scripted_env 10)
      (PStr "2+2?") fresh_world
    = (Raise (Exn "ProviderError" "rate limited"), w')
    ∧ length (lm_calls w') = 1%nat
    ∧ executed w' = [].
Proof.
  exact (X19_client_failure_propagates
           (rlm_with (failing_client "down" "rate limited") scripted_env 10)
           (PStr "2+2?") fresh_world (Exn "ProviderError" "rate limited") 1%nat
           ltac:(simpl; lia) eq_refl).
Defined.

(** X20. An exception of the environment aborts the turn and the run.  When
    the first block of the first response makes [execute_code] raise,
    [completion] raises the same exception and the blocks after it are never
    handed to the environment. *)
Theorem X20_environment_failure_aborts {Ext : Type} `{Parsing}
    (self : RLM Ext) (prompt : pyval) (w : World Ext)
    (reply block : string) (rest : list string) (e : exn) (x x' : Ext) :
  0 < max_iterations self ->
  lm_completion (default_client (lm_handler self))
    (PList (_setup_prompt self prompt)) (ext w) = (Ok reply, x) ->
  extract_code_blocks reply = block :: rest ->
  execute_code (environment self) block x = (Raise e, x') ->
  ∃ w',
    completion self prompt w = (Raise e, w')
    ∧ executed w' = (executed w ++ [(block, Raise e)])%list.
Proof.
  intros Hiter Hlm Hblocks Hexec. unfold completion.
  destruct (Z.to_nat (max_iterations self)) as [|n] eqn:Hn; [lia|].
  simpl. unfold mbind, M_bind, _completion_turn, handler_completion, mbind,
    M_bind, lift, completion_call. simpl. rewrite Hlm, Hblocks. simpl.
  unfold mbind, M_bind, execute_call. simpl. rewrite Hexec.
  eexists. split; reflexivity.
Qed.

Lemma X20_environment_failure_aborts_witness :
  ∃ w',
    completion (rlm_with (scripted_client "gpt" "try both") crashing_env 10)
      (PStr "2+2?") fresh_world
    = (Raise (Exn "RuntimeError" "environment lost"), w')
    ∧ executed w' = [("1/0", Raise (Exn "RuntimeError" "environment lost"))].
Proof.
  exact (X20_environment_failure_aborts
           (rlm_with (scripted_client "gpt" "try both") crashing_env 10)
           (PStr "2+2?") fresh_world "try both" "1/0" ["print(1)"]
           (Exn "RuntimeError" "environment lost") 1%nat 2%nat
           ltac:(simpl; lia) eq_refl eq_refl eq_refl).
Defined.

(** X21. What the loop asks of the model, in every run and whatever its
    outcome: only the default client is asked, at most [max_iterations]
    times, each time with the message history so far.  The first history is
    the user's message alone; each later one is the history of the turn
    before, extended by the formatting of the iteration which that turn
    returned; and no turn follows one that raised or brought the final
    answer.  So every history begins with the user's message. *)
Theorem X21_prompts_are_growing_histories {Ext : Type} `{Parsing}
    (self : RLM Ext) (prompt : pyval) (w : World Ext) :
  ∃ asked,
    lm_calls (completion self prompt w).2 = (lm_calls w ++ asked)%list
    ∧ asks_histories self (Z.to_nat (max_iterations self))
        [PDict [("role", PStr "user"); ("content", prompt)]] w asked
    ∧ Forall (λ c, c.1 = model_name (default_client (lm_handler self))
                   ∧ ∃ later,
                       c.2 = PList (PDict [("role", PStr "user");
                                           ("content", prompt)] :: later)) asked
    ∧ (length asked <= Z.to_nat (max_iterations self))%nat.
Proof.
  destruct (iterate_asks self (Z.to_nat (max_iterations self))
              (_setup_prompt self prompt) w)
    as (asked & Hasked & Hchain & Hall & Hlen).
  exists asked. split_and!; [|exact Hchain|exact Hall|exact Hlen].
  unfold completion, mbind, M_bind.
  by destruct (iterate self _ _ w) as [[[answer|h]|e] w'].
Qed.

(** A run of two turns that never answers: the second prompt is the first
    followed by what the first iteration was formatted to. *)
Example two_turns_two_histories :
  let self := scripted_rlm 1 2 in
  let user := PDict [("role", PStr "user"); ("content", PStr "q")] in
  ∃ it w1,
    _completion_turn self (PList [user]) fresh_world = (Ok it, w1)
    ∧ lm_calls (completion self (PStr "q") fresh_world).2
      = [("gpt", PList [user]);
         ("gpt", PList ([user] ++ format_iteration it)%list)].
Proof.
  eexists _, _. split; vm_compute; reflexivity.
Qed.

(** ** Construction, continued *)

Section ConstructionEffects.
Context {Ext : Type} `{Platform Ext}.

Lemma register_others_keeps (pairs : list (string * pydict)) :
  ∀ (handler handler' : LMHandler Ext),
    register_others handler pairs = Ok handler' ->
    default_client handler' = default_client handler
    ∧ host handler' = host handler
    ∧ _server handler' = _server handler
    ∧ _port handler' = _port handler.
Proof.
  induction pairs as [|[b kw] pairs IH]; intros handler handler' Hreg; simpl in Hreg.
  - by injection Hreg as <-.
  - destruct (clients_get_client b kw) as [client|e]; [|done].
    by apply IH in Hreg.
Qed.

(** Everything a successful construction does to the world and puts in the
    orchestrator. *)
Lemma RLM_init_effects backend backend_kwargs env_name kwargs_ref
    depth iterations prompt others others_kwargs (w w' : World Ext) rlm :
  RLM_init backend backend_kwargs env_name kwargs_ref depth iterations prompt
    others others_kwargs w = (Ok rlm, w') ->
  let l := default default_environment_kwargs kwargs_ref in
  let kwargs :=
    dict_set "LM_HANDLER_PORT" (PInt (port (lm_handler rlm)))
      (dict_set "LM_HANDLER_HOST" (PStr "127.0.0.1") (heap_read l w)) in
  heap w' = <[l := kwargs]> (heap w)
  ∧ ext w' = ext w ∧ lm_calls w' = lm_calls w ∧ executed w' = executed w
  ∧ get_environment env_name kwargs = Ok (environment rlm)
  ∧ clients_get_client backend backend_kwargs = Ok (default_client (lm_handler rlm))
  ∧ host (lm_handler rlm) = "127.0.0.1"
  ∧ server_bind ("127.0.0.1", 0) = Ok (port (lm_handler rlm)).
Proof.
  intros Hinit l kwargs. unfold RLM_init in Hinit.
  unfold mbind, M_bind, mret, M_ret, lift, raise, heap_setitem in Hinit.
  fold l in Hinit.
  destruct (clients_get_client backend backend_kwargs) as [client|e] eqn:Hclient;
    [|done].
  assert (Hhandler : ∀ (h : LMHandler Ext) (w0 : World Ext),
    match others with
    | Some (b :: bs) =>
        match others_kwargs with
        | Some kws =>
            λ s : World Ext,
              (register_others (LMHandler_init client None None) (zip (b :: bs) kws), s)
        | None => λ s : World Ext,
              (Raise (Exn "TypeError" "'NoneType' object is not iterable"), s)
        end
    | _ => λ s : World Ext, (Ok (LMHandler_init client None None), s)
    end w = (Ok h, w0) ->
    w0 = w ∧ default_client h = client ∧ host h = "127.0.0.1"
    ∧ _server h = None ∧ _port h = 0).
  { intros h w0 Hh. destruct others as [[|b bs]|]; [| |];
      try (injection Hh as <- <-; done).
    destruct others_kwargs as [kws|]; [|done].
    injection Hh as Hreg <-.
    apply register_others_keeps in Hreg. simpl in Hreg.
    destruct Hreg as (? & ? & ? & ?). done. }
  match type of Hinit with
  | (let (_, _) := ?m w in _) = _ => destruct (m w) as [[h|e] w0] eqn:Hh; [|done]
  end.
  apply Hhandler in Hh as (-> & Hdef & Hhost & Hserver & Hport).
  unfold start in Hinit. rewrite Hserver, Hhost, Hport in Hinit.
  destruct (server_bind ("127.0.0.1", 0)) as [bound|e] eqn:Hbind; [|done].
  simpl in Hinit. unfold heap_read in Hinit. simpl in Hinit.
  repeat (rewrite lookup_insert_eq in Hinit; simpl in Hinit).
  rewrite insert_insert_eq in Hinit.
  destruct (get_environment env_name _) as [env|e] eqn:Henv; [|done].
  injection Hinit as <- <-. simpl.
  subst kwargs. unfold port, heap_read. simpl.
  split_and!; try done. by rewrite Hdef.
Qed.
End ConstructionEffects.

(** X22. What a successful construction does.  It writes the host and the
    port of its router's handler into the dict it was given -- the caller's
    own dict, in place -- and changes nothing else: the other keys of that
    dict, the other dicts, the providers and the records stay as they were.
    The environment is created from the dict so extended, the router listens
    on 127.0.0.1 at the port the system chose, and its default client is the
    client of the backend. *)
Theorem X22_construction_effects {Ext : Type} `{Platform Ext}
    backend backend_kwargs env_name kwargs_ref depth iterations prompt
    others others_kwargs (w w' : World Ext) (rlm : RLM Ext) :
  RLM_init backend backend_kwargs env_name kwargs_ref depth iterations prompt
    others others_kwargs w = (Ok rlm, w') ->
  let l := default default_environment_kwargs kwargs_ref in
  dict_lookup "LM_HANDLER_HOST" (heap_read l w') = Some (PStr "127.0.0.1")
  ∧ dict_lookup "LM_HANDLER_PORT" (heap_read l w')
    = Some (PInt (port (lm_handler rlm)))
  ∧ (∀ k, k ≠ "LM_HANDLER_HOST" -> k ≠ "LM_HANDLER_PORT" ->
          dict_lookup k (heap_read l w') = dict_lookup k (heap_read l w))
  ∧ (∀ l', l' ≠ l -> heap w' !! l' = heap w !! l')
  ∧ ext w' = ext w ∧ lm_calls w' = lm_calls w ∧ executed w' = executed w
  ∧ get_environment env_name (heap_read l w') = Ok (environment rlm)
  ∧ clients_get_client backend backend_kwargs = Ok (default_client (lm_handler rlm))
  ∧ server_bind ("127.0.0.1", 0) = Ok (port (lm_handler rlm)).
Proof.
  intros Hinit l.
  destruct (RLM_init_effects _ _ _ _ _ _ _ _ _ _ _ _ Hinit)
    as (Hheap & Hext & Hcalls & Hexec & Henv & Hclient & Hhost & Hbind).
  fold l in Hheap, Henv.
  assert (Hread : heap_read l w'
                  = dict_set "LM_HANDLER_PORT" (PInt (port (lm_handler rlm)))
                      (dict_set "LM_HANDLER_HOST" (PStr "127.0.0.1") (heap_read l w))).
  { unfold heap_read at 1. rewrite Hheap, lookup_insert_eq. done. }
  rewrite Hread. split_and!; try done.
  - rewrite dict_lookup_set_ne by done. apply dict_lookup_set_eq.
  - apply dict_lookup_set_eq.
  - intros k Hk1 Hk2. by rewrite !dict_lookup_set_ne by done.
  - intros l' Hl'. rewrite Hheap. by rewrite lookup_insert_ne.
Qed.

Lemma X22_construction_effects_witness :
  let construct := RLM_init "openai" [] "local" (Some 1%nat) 1 10 None None None in
  let w' := (construct world_with_kwargs).2 in
  dict_lookup "LM_HANDLER_HOST" (heap_read 1 w') = Some (PStr "127.0.0.1")
  ∧ dict_lookup "LM_HANDLER_PORT" (heap_read 1 w') = Some (PInt 50007)
  ∧ (∀ k, k ≠ "LM_HANDLER_HOST" -> k ≠ "LM_HANDLER_PORT" ->
          dict_lookup k (heap_read 1 w') = dict_lookup k (heap_read 1 world_with_kwargs))
  ∧ (∀ l', l' ≠ 1%nat -> heap w' !! l' = heap world_with_kwargs !! l')
  ∧ ext w' = 0%nat ∧ lm_calls w' = [] ∧ executed w' = []
  ∧ get_environment "local" (heap_read 1 w') = Ok scripted_env
  ∧ clients_get_client "openai" [] = Ok (scripted_client "gpt" "try both")
  ∧ server_bind ("127.0.0.1", 0) = Ok 50007.
Proof.
  exact (X22_construction_effects "openai" [] "local" (Some 1%nat) 1 10 None None None
           world_with_kwargs _
           {| max_depth := 1; max_iterations := 10;
              system_prompt := RLM_SYSTEM_PROMPT;
              lm_handler :=
                {| default_client := scripted_client "gpt" "try both";
                   clients := ∅; host := "127.0.0.1"; _server := Some 50007;
                   _port := 0 |};
              environment := scripted_env |}
           eq_refl).
Defined.

(** X23. A backend other than ["openai"] and ["portkey"] is refused with a
    [ValueError] whose message names the backend, and the construction stops
    there: no server is bound and the world is untouched. *)
Theorem X23_unknown_backend_is_refused {Ext : Type} `{Platform Ext}
    backend backend_kwargs env_name kwargs_ref depth iterations prompt
    others others_kwargs (w : World Ext) :
  backend ≠ "openai" -> backend ≠ "portkey" ->
  let refusal :=
    Exn "ValueError"
      ("Unknown backend: " ++ backend ++ ". Supported backends: ['openai']") in
  clients_get_client backend backend_kwargs = Raise refusal
  ∧ RLM_init backend backend_kwargs env_name kwargs_ref depth iterations prompt
      others others_kwargs w = (Raise refusal, w).
Proof.
  intros Hopenai Hportkey refusal.
  assert (Hclient : clients_get_client backend backend_kwargs = Raise refusal).
  { unfold clients_get_client. by rewrite !decide_False by done. }
  split; [done|].
  unfold RLM_init, mbind, M_bind, lift. by rewrite Hclient.
Qed.

Lemma X23_unknown_backend_is_refused_witness :
  let refusal :=
    Exn "ValueError" "Unknown backend: anthropic. Supported backends: ['openai']" in
  clients_get_client (Ext := nat) "anthropic" [] = Raise refusal
  ∧ RLM_init "anthropic" [] "local" None 1 10 None None None fresh_world
    = (Raise refusal, fresh_world).
Proof.
  exact (X23_unknown_backend_is_refused "anthropic" [] "local" None 1 10 None None
           None fresh_world ltac:(discriminate) ltac:(discriminate)).
Defined.

(** X24. Other backends given without their keyword arguments make the
    construction raise [TypeError]: [other_backend_kwargs] defaults to
    [None], which cannot be zipped.  The first client has been created by
    then; no server is bound and the world is untouched. *)
Theorem X24_other_backends_need_kwargs {Ext : Type} `{Platform Ext}
    backend backend_kwargs env_name kwargs_ref depth iterations prompt
    (b : string) (bs : list string) (client : BaseLM Ext) (w : World Ext) :
  clients_get_client backend backend_kwargs = Ok client ->
  RLM_init backend backend_kwargs env_name kwargs_ref depth iterations prompt
    (Some (b :: bs)) None w
  = (Raise (Exn "TypeError" "'NoneType' object is not iterable"), w).
Proof.
  intros Hclient. unfold RLM_init, mbind, M_bind, lift. by rewrite Hclient.
Qed.

Lemma X24_other_backends_need_kwargs_witness :
  RLM_init "openai" [] "local" None 1 10 None (Some ["portkey"]) None fresh_world
  = (Raise (Exn "TypeError" "'NoneType' object is not iterable"), fresh_world).
Proof.
  exact (X24_other_backends_need_kwargs "openai" [] "local" None 1 10 None
           "portkey" [] (scripted_client "gpt" "try both") fresh_world eq_refl).
Defined.

Lemma zip_surplus {A B : Type} (xs extra : list A) (ys : list B) :
  length xs = length ys -> zip (xs ++ extra) ys = zip xs ys.
Proof.
  revert ys. induction xs as [|x xs IH]; intros [|y ys] Hlen; simpl in *;
    try discriminate.
  - by destruct extra.
  - f_equal. apply IH. lia.
Qed.

(** X25. Other backends beyond the keyword arguments supplied for them are
    dropped without notice: the construction pairs backends with kwargs and
    stops at the shorter list, so it goes exactly as if the surplus backends
    had not been given. *)
Theorem X25_surplus_backends_are_dropped {Ext : Type} `{Platform Ext}
    backend backend_kwargs env_name kwargs_ref depth iterations prompt
    (b : string) (bs surplus : list string) (kws : list pydict) (w : World Ext) :
  length (b :: bs) = length kws ->
  RLM_init backend backend_kwargs env_name kwargs_ref depth iterations prompt
    (Some ((b :: bs) ++ surplus)%list) (Some kws) w
  = RLM_init backend backend_kwargs env_name kwargs_ref depth iterations prompt
      (Some (b :: bs)) (Some kws) w.
Proof.
  intros Hlen. unfold RLM_init.
  change ((b :: bs) ++ surplus)%list with (b :: (bs ++ surplus))%list.
  cbv beta iota.
  change (zip (b :: (bs ++ surplus)) kws) with (zip ((b :: bs) ++ surplus) kws).
  by rewrite (zip_surplus (b :: bs) surplus kws Hlen).
Qed.

Lemma X25_surplus_backends_are_dropped_witness :
  RLM_init "openai" [] "local" None 1 10 None
    (Some (["portkey"] ++ ["mistral"; "llama"])%list) (Some [[]]) fresh_world
  = RLM_init "openai" [] "local" None 1 10 None (Some ["portkey"]) (Some [[]])
      fresh_world.
Proof.
  exact (X25_surplus_backends_are_dropped "openai" [] "local" None 1 10 None
           "portkey" [] ["mistral"; "llama"] [[]] fresh_world eq_refl).
Defined.

(** X26. [get_client] of the clients package yields a client only for the
    backends ["openai"] and ["portkey"], and only when the API key of that
    backend is set in the environment to a non-empty string; the client is
    then the one its constructor builds from the key and the kwargs. *)
Theorem X26_client_needs_backend_and_key {Ext : Type} `{Platform Ext}
    (backend : string) (backend_kwargs : pydict) (client : BaseLM Ext) :
  clients_get_client backend backend_kwargs = Ok client ->
  (backend = "openai"
   ∧ ∃ key, environ "OPENAI_API_KEY" = Some key ∧ key ≠ ""
            ∧ OpenAIClient key backend_kwargs = Ok client)
  ∨ (backend = "portkey"
     ∧ ∃ key, environ "PORTKEY_API_KEY" = Some key ∧ key ≠ ""
              ∧ PortkeyClient key backend_kwargs = Ok client).
Proof.
  unfold clients_get_client. intros Hclient.
  destruct (decide (backend = "openai")) as [->|_].
  - left. split; [done|].
    destruct (environ "OPENAI_API_KEY") as [key|]; [|done].
    exists key. simpl in Hclient.
    destruct (String.eqb key "") eqn:Hkey; simpl in Hclient; [done|].
    split_and!; [done | | done].
    intros ->. by rewrite String.eqb_refl in Hkey.
  - destruct (decide (backend = "portkey")) as [->|_]; [|done].
    right. split; [done|].
    destruct (environ "PORTKEY_API_KEY") as [key|]; [|done].
    exists key. simpl in Hclient.
    destruct (String.eqb key "") eqn:Hkey; simpl in Hclient; [done|].
    split_and!; [done | | done].
    intros ->. by rewrite String.eqb_refl in Hkey.
Qed.

Lemma X26_client_needs_backend_and_key_witness :
  ("openai" = "openai"
   ∧ ∃ key, environ (Ext := nat) "OPENAI_API_KEY" = Some key ∧ key ≠ ""
            ∧ OpenAIClient key [] = Ok (scripted_client "gpt" "try both"))
  ∨ ("openai" = "portkey"
     ∧ ∃ key, environ (Ext := nat) "PORTKEY_API_KEY" = Some key ∧ key ≠ ""
              ∧ PortkeyClient key [] = Ok (scripted_client "gpt" "try both")).
Proof.
  exact (X26_client_needs_backend_and_key "openai" []
           (scripted_client "gpt" "try both") eq_refl).
Defined.

(** ** The Portkey client *)

(** X27. The Portkey client takes string prompts only.  For any other
    prompt -- a list of turns, a dict, [None] -- [completion] raises
    [ValueError] naming the type, without calling the service and without
    counting a call. *)
Theorem X27_portkey_refuses_structured_prompts {A : Type}
    (create : pyval -> pyval -> A -> outcome ChatCompletions * A)
    (prompt model : pyval) (self : Portkey.t) (api : A) :
  is_str prompt = false ->
  Portkey.completion create prompt model (self, api)
  = (Raise (Exn "ValueError"
              ("Invalid prompt type: <class '" ++ type_name prompt ++ "'>")),
     (self, api)).
Proof. intros Hstr. unfold Portkey.completion. by rewrite Hstr. Qed.

Lemma X27_portkey_refuses_structured_prompts_witness :
  let turns := PList [PDict [("role", PStr "user"); ("content", PStr "2+2?")]] in
  Portkey.completion scripted_api turns PNone (Portkey.init "m", 0%nat)
  = (Raise (Exn "ValueError" "Invalid prompt type: <class 'list'>"),
     (Portkey.init "m", 0%nat)).
Proof.
  exact (X27_portkey_refuses_structured_prompts scripted_api
           (PList [PDict [("role", PStr "user"); ("content", PStr "2+2?")]])
           PNone (Portkey.init "m") 0%nat eq_refl).
Defined.

(** X28. Cost tracking.  Every response of the service is counted, and its
    usage added to the totals, before the text is taken from it: the summary
    after the call shows one more call and the usage added, and the call
    returns the content of the first choice -- or raises [IndexError] when
    the response has no choice, the call being counted all the same.  The
    model asked for is the client's own unless a non-empty one is given. *)
Theorem X28_portkey_counts_every_response {A : Type}
    (create : pyval -> pyval -> A -> outcome ChatCompletions * A)
    (text : string) (model : pyval) (self : Portkey.t) (api api' : A)
    (response : ChatCompletions) :
  create (if truthy model then model else PStr (Portkey.model_name self))
    (PList [PDict [("role", PStr "user"); ("content", PStr text)]]) api
  = (Ok response, api') ->
  let after := (Portkey.completion create (PStr text) model (self, api)).2 in
  let before := Portkey.get_cost_summary self in
  after.2 = api'
  ∧ Portkey.get_cost_summary after.1
    = {| CostSummary.total_calls := CostSummary.total_calls before + 1;
         CostSummary.total_cost :=
           CostSummary.total_cost before + total_tokens (usage response);
         CostSummary.total_input_tokens :=
           CostSummary.total_input_tokens before + prompt_tokens (usage response);
         CostSummary.total_output_tokens :=
           CostSummary.total_output_tokens before
           + completion_tokens (usage response) |}
  ∧ (Portkey.completion create (PStr text) model (self, api)).1
    = match choices response with
      | [] => Raise (Exn "IndexError" "list index out of range")
      | content :: _ => Ok content
      end.
Proof.
  intros Hcreate. unfold Portkey.completion. simpl. rewrite Hcreate.
  by destruct (choices response).
Qed.

Lemma X28_portkey_counts_every_response_witness :
  let after :=
    (Portkey.completion choiceless_api (PStr "2+2?") PNone
       (Portkey.init "m", 0%nat)).2 in
  after.2 = 1%nat
  ∧ Portkey.get_cost_summary after.1
    = {| CostSummary.total_calls := 1; CostSummary.total_cost := 9;
         CostSummary.total_input_tokens := 9;
         CostSummary.total_output_tokens := 0 |}
  ∧ (Portkey.completion choiceless_api (PStr "2+2?") PNone
       (Portkey.init "m", 0%nat)).1
    = Raise (Exn "IndexError" "list index out of range").
Proof.
  exact (X28_portkey_counts_every_response choiceless_api "2+2?" PNone
           (Portkey.init "m") 0%nat 1%nat _ eq_refl).
Defined.

(** X29. The loop cannot run on a Portkey client.  The loop hands the
    client the message history, which is a list, and the Portkey client
    takes strings only: with at least one iteration allowed, [completion] of
    an orchestrator whose default client is a Portkey client raises
    [ValueError] on its first turn, for every prompt, without reaching the
    service and without executing anything. *)
Theorem X29_loop_fails_on_portkey {A : Type} `{Parsing}
    (create : pyval -> pyval -> A -> outcome ChatCompletions * A)
    (name : string) (self : RLM (Portkey.t * A)) (prompt : pyval)
    (w : World (Portkey.t * A)) :
  default_client (lm_handler self) = Portkey.as_client create name ->
  0 < max_iterations self ->
  ∃ w',
    completion self prompt w
    = (Raise (Exn "ValueError" "Invalid prompt type: <class 'list'>"), w')
    ∧ ext w' = ext w
    ∧ executed w' = executed w
    ∧ lm_calls w'
      = (lm_calls w ++ [(name, PList (_setup_prompt self prompt))])%list.
Proof.
  intros Hclient Hiter. unfold completion.
  destruct (Z.to_nat (max_iterations self)) as [|n] eqn:Hn; [lia|].
  simpl. unfold mbind, M_bind, _completion_turn, handler_completion, mbind,
    M_bind, lift, completion_call. simpl. rewrite Hclient. simpl.
  eexists. split_and!; reflexivity.
Qed.

Lemma X29_loop_fails_on_portkey_witness :
  ∃ w',
    completion portkey_rlm (PStr "2+2?") portkey_world
    = (Raise (Exn "ValueError" "Invalid prompt type: <class 'list'>"), w')
    ∧ ext w' = (Portkey.init "@openai/gpt-5-nano", 0%nat)
    ∧ executed w' = []
    ∧ lm_calls w'
      = [("@openai/gpt-5-nano",
          PList [PDict [("role", PStr "user"); ("content", PStr "2+2?")]])].
Proof.
  exact (X29_loop_fails_on_portkey scripted_api "@openai/gpt-5-nano" portkey_rlm
           (PStr "2+2?") portkey_world eq_refl ltac:(simpl; lia)).
Defined.
